(** * linear_allocator: a fixed-capacity pool of single blocks

    Shallow embedding of the class template [linear_allocator<T>] of
    [src/cpp/linear_allocator.hpp] and the properties of its bookkeeping.

    Conventions of the embedding
    - [std::size_t] values are integers in [0, 2^64); every arithmetic
      operation of the source on them is followed by [wrap].
    - a pointer is an integer address, [nullptr] is [0];
    - [std::bitset<OBJECTS_LIMIT>] is a list of [OBJECTS_LIMIT] booleans;
      [test] and [set] raise [std::out_of_range] past its width;
    - [std::map<const void*, size_type>] is a finite map from addresses to
      slot indices; [operator[]] inserts a value-initialised entry on a miss;
    - a member function is a function from the object before the call to
      the outcome of the call and the object after it; an exception leaves
      the object as it was when the exception was thrown. *)

From Stdlib Require Import ZArith String.
From stdpp Require Import base option list gmap.

Local Open Scope Z_scope.

(** ** Machine integers and exceptions *)

Definition size_max : Z := 2 ^ 64.

Definition wrap (x : Z) : Z := x mod size_max.

Definition is_size_t (x : Z) : Prop := 0 <= x < size_max.

Definition nullptr : Z := 0.

Inductive exception : Type :=
  | length_error (what : string)
  | bad_alloc
  | out_of_range.

Inductive outcome (A : Type) : Type :=
  | Return (a : A)
  | Throw (e : exception).

Arguments Return {A} a.
Arguments Throw {A} e.

Definition threw {A : Type} (o : outcome A) : bool :=
  match o with
  | Return _ => false
  | Throw _ => true
  end.

(** The two messages [allocate] passes to [std::length_error]. *)
Definition maximum_objects_exceeded : exception :=
  length_error "linear_allocator::allocate - maximum objects exceeded".

Definition only_one_object_at_once : exception :=
  length_error "linear_allocator::allocate - this allocator supports only one object allocation at once".

(** ** std::bitset<OBJECTS_LIMIT> *)

Definition OBJECTS_LIMIT : Z := 320.

Module bitset.

Abbreviation t := (list bool).

(** Default construction: every bit is zero. *)
Definition create : t := replicate (Z.to_nat OBJECTS_LIMIT) false.

(** [test pos]: the bit at [pos], [None] standing for [std::out_of_range]. *)
Definition test (b : t) (pos : Z) : option bool :=
  if OBJECTS_LIMIT <=? pos then None else b !! Z.to_nat pos.

(** [set pos val]; the caller has checked the range. *)
Definition set (b : t) (pos : Z) (val : bool) : t :=
  <[Z.to_nat pos := val]> b.

(** [count]: the number of bits that are set. *)
Fixpoint count (b : t) : Z :=
  match b with
  | [] => 0
  | true :: b' => 1 + count b'
  | false :: b' => count b'
  end.

End bitset.

(** ** The allocator object *)

Record linear_allocator : Type := mk_linear_allocator {
  count_ : Z;
  elementSize_ : Z;
  available_count_ : Z;
  buffer_ : Z;
  blocks_status_ : bitset.t;
  freedIndex_ : Z;
  reserved_blocks_indices_ : gmap Z Z
}.

Definition set_available_count (p : linear_allocator) (n : Z) : linear_allocator :=
  mk_linear_allocator (count_ p) (elementSize_ p) n (buffer_ p)
    (blocks_status_ p) (freedIndex_ p) (reserved_blocks_indices_ p).

Definition set_freedIndex (p : linear_allocator) (i : Z) : linear_allocator :=
  mk_linear_allocator (count_ p) (elementSize_ p) (available_count_ p) (buffer_ p)
    (blocks_status_ p) i (reserved_blocks_indices_ p).

(** [blocks_status_.set( i, true )] followed by
    [reserved_blocks_indices_[ptr_] = i]. *)
Definition reserve (p : linear_allocator) (i ptr_ : Z) : linear_allocator :=
  mk_linear_allocator (count_ p) (elementSize_ p) (available_count_ p) (buffer_ p)
    (bitset.set (blocks_status_ p) i true) (freedIndex_ p)
    (<[ptr_ := i]> (reserved_blocks_indices_ p)).

(** *** Constructor

    [malloc] is the C library's: it maps a size to an address, [nullptr]
    when the request cannot be satisfied.  [sizeof_T] is [sizeof( T )]. *)
Definition construct (malloc : Z -> Z) (sizeof_T : Z) (pCount_ : Z)
  : outcome linear_allocator :=
  let buffer := malloc (wrap (wrap (sizeof_T * pCount_) * 1)) in
  if buffer =? nullptr then Throw bad_alloc
  else Return (mk_linear_allocator pCount_ sizeof_T pCount_ buffer
                 bitset.create 0 ∅).

(** *** Queries *)

Definition available_size (p : linear_allocator) : Z := available_count_ p.

Definition reserved_size (p : linear_allocator) : Z :=
  wrap (count_ p - available_count_ p).

Definition max_size (p : linear_allocator) : Z :=
  (size_max - 1) / elementSize_ p.

(** *** allocate *)

(** Address computed in both branches of [allocate]:
    [buffer_ + ( freedIndex_ * elementSize_ )]. *)
Definition block_ptr (p : linear_allocator) : Z :=
  buffer_ p + wrap (freedIndex_ p * elementSize_ p).

(** The [while ( i < count_ )] loop.  [remaining] is [count_ - i], the
    number of iterations left before the loop condition fails. *)
Fixpoint search (remaining : nat) (i : Z) (p : linear_allocator)
  : outcome Z * linear_allocator :=
  match remaining with
  | O => (Throw bad_alloc, p)
  | S remaining' =>
      match bitset.test (blocks_status_ p) i with
      | None => (Throw out_of_range, p)
      | Some false =>
          let ptr_ := block_ptr p in
          (Return ptr_, reserve p i ptr_)
      | Some true => search remaining' (wrap (i + 1)) p
      end
  end.

Definition allocate (p : linear_allocator) (pCount : Z)
  : outcome Z * linear_allocator :=
  if available_count_ p <? 1 then (Throw maximum_objects_exceeded, p)
  else if pCount >? 1 then (Throw only_one_object_at_once, p)
  else if pCount <? 1 then (Return nullptr, p)
  else
    let p1 := set_available_count p (wrap (available_count_ p - pCount)) in
    let scan (q : linear_allocator) := search (Z.to_nat (count_ q)) 0 q in
    if freedIndex_ p1 >? 0 then
      match bitset.test (blocks_status_ p1) (freedIndex_ p1) with
      | None => (Throw out_of_range, p1)
      | Some false =>
          let ptr_ := block_ptr p1 in
          (Return ptr_, set_freedIndex (reserve p1 (freedIndex_ p1) ptr_) 0)
      | Some true => scan (set_freedIndex p1 0)
      end
    else scan p1.

(** *** deallocate

    [destroy( ptr_ )] runs the destructor of the stored value and does not
    touch the bookkeeping; it is left out. *)
Definition deallocate (p : linear_allocator) (ptr_ : Z) (size_ : Z)
  : outcome unit * linear_allocator :=
  let m := reserved_blocks_indices_ p in
  let m1 := match m !! ptr_ with
            | Some _ => m
            | None => <[ptr_ := 0]> m
            end in
  let index_ := default 0 (m !! ptr_) in
  if OBJECTS_LIMIT <=? index_ then
    (Throw out_of_range,
     mk_linear_allocator (count_ p) (elementSize_ p) (available_count_ p)
       (buffer_ p) (blocks_status_ p) (freedIndex_ p) m1)
  else
    (Return (),
     mk_linear_allocator (count_ p) (elementSize_ p)
       (wrap (available_count_ p + size_)) (buffer_ p)
       (bitset.set (blocks_status_ p) index_ false) index_
       (delete ptr_ m1)).

(** *** Operators *)

Definition operator_eq (this pOther : linear_allocator) : bool := true.

(** [operator!=] is [return( *this != pOther )]: its body is one call of
    itself.  [operator_ne_body] is the body with the callee abstracted,
    [operator_ne] unrolls it [depth] times; [None] means that the call at
    that depth has not returned. *)
Definition operator_ne_body
    (self : linear_allocator -> linear_allocator -> option bool)
    (this pOther : linear_allocator) : option bool :=
  self this pOther.

Fixpoint operator_ne (depth : nat) (this pOther : linear_allocator)
  : option bool :=
  match depth with
  | O => None
  | S depth' => operator_ne_body (operator_ne depth') this pOther
  end.

(** ** Sequences of calls *)

Inductive call : Type :=
  | Allocate (pCount : Z)
  | Deallocate (ptr_ size_ : Z).

(** The outcome of a call, with the value it returns forgotten. *)
Definition exec (p : linear_allocator) (c : call)
  : outcome unit * linear_allocator :=
  match c with
  | Allocate pCount =>
      let r := allocate p pCount in
      (match fst r with Return _ => Return () | Throw e => Throw e end, snd r)
  | Deallocate ptr_ size_ => deallocate p ptr_ size_
  end.

Definition run (p : linear_allocator) (cs : list call) : linear_allocator :=
  fold_left (fun q c => snd (exec q c)) cs p.

(** A sequence of calls in which every [deallocate] releases one block
    and names an address that the reverse index holds at that moment. *)
Fixpoint releases_tracked (p : linear_allocator) (cs : list call) : bool :=
  match cs with
  | [] => true
  | Allocate pCount :: cs' => releases_tracked (snd (exec p (Allocate pCount))) cs'
  | Deallocate ptr_ size_ :: cs' =>
      bool_decide (size_ = 1)
      && bool_decide (is_Some (reserved_blocks_indices_ p !! ptr_))
      && releases_tracked (snd (exec p (Deallocate ptr_ size_))) cs'
  end.

(** The addresses that the caller holds after the calls [cs], [held]
    being those it held before: an address enters when [allocate] returns
    it and leaves when [deallocate] of it returns. *)
Fixpoint outstanding (p : linear_allocator) (cs : list call) (held : gset Z)
  : gset Z :=
  match cs with
  | [] => held
  | c :: cs' =>
      outstanding (snd (exec p c)) cs'
        match c with
        | Allocate pCount =>
            match fst (allocate p pCount) with
            | Return a => {[a]} ∪ held
            | Throw _ => held
            end
        | Deallocate ptr_ size_ =>
            match fst (deallocate p ptr_ size_) with
            | Return _ => held ∖ {[ptr_]}
            | Throw _ => held
            end
        end
  end.

(** The equation of the data model. *)
Definition counter_matches_bitmap (p : linear_allocator) : Prop :=
  available_count_ p = count_ p - bitset.count (blocks_status_ p).

(** Address of slot [i], as the fast path of [allocate] computes it. *)
Definition slot_address (p : linear_allocator) (i : Z) : Z :=
  buffer_ p + wrap (i * elementSize_ p).

(** ** Concrete pools

    [linear_allocator<double>] objects on a heap whose every request
    succeeds at the same address. *)

Definition heap_at (address : Z) (size : Z) : Z := address.

Definition fresh (address capacity : Z) : linear_allocator :=
  mk_linear_allocator capacity 8 capacity address bitset.create 0 ∅.

(** A pool of three blocks whose caller has received the address 4096
    three times, has released it three times and has allocated twice
    more: one block is still counted as available, every bit below the
    capacity is set. *)
Definition three_blocks_miscounted : linear_allocator :=
  run (fresh 4096 3)
    [Allocate 1; Allocate 1; Allocate 1;
     Deallocate 4096 1; Deallocate 4096 1; Deallocate 4096 1;
     Allocate 1; Allocate 1].

(** The pool of one block after its block has been taken. *)
Definition exhausted : linear_allocator := snd (allocate (fresh 4096 1) 1).

(** ** Consistency of the bookkeeping

    [bookkeeping debt] collects what the three structures know about each
    other in a pool that is used as intended: the capacity fits the
    bitset, the cached index is a position of the bitset, the reverse
    index maps distinct addresses to distinct slots that are marked
    occupied, and the counter, an unsigned number, is [debt] below what
    the bitset says.
    Between two calls the debt is zero; inside [allocate] it is one from
    the decrement of the counter to the reservation of the slot. *)

Record bookkeeping (debt : Z) (p : linear_allocator) : Prop := mk_bookkeeping {
  cons_capacity : 0 <= count_ p <= OBJECTS_LIMIT;
  cons_width : length (blocks_status_ p) = Z.to_nat OBJECTS_LIMIT;
  cons_available : 0 <= available_count_ p;
  cons_counter :
    available_count_ p + debt = count_ p - bitset.count (blocks_status_ p);
  cons_cache : 0 <= freedIndex_ p < OBJECTS_LIMIT;
  cons_occupied : forall a i,
    reserved_blocks_indices_ p !! a = Some i ->
    0 <= i /\ blocks_status_ p !! Z.to_nat i = Some true;
  cons_distinct : forall a a' i,
    reserved_blocks_indices_ p !! a = Some i ->
    reserved_blocks_indices_ p !! a' = Some i ->
    a = a'
}.

Definition consistent (p : linear_allocator) : Prop := bookkeeping 0 p.

(** ** Pools in use

    [reachable]: the pools that some sequence of calls produces from a
    newly constructed one.  [in_use]: those among them whose capacity
    fits the bitset and whose every [deallocate] released one block at an
    address the reverse index held. *)

Definition reachable (p : linear_allocator) : Prop :=
  exists malloc sizeof_T pCount_ p0 cs,
    construct malloc sizeof_T pCount_ = Return p0
    /\ p = run p0 cs.

Definition in_use (p : linear_allocator) : Prop :=
  exists malloc sizeof_T pCount_ p0 cs,
    0 <= pCount_ <= OBJECTS_LIMIT
    /\ construct malloc sizeof_T pCount_ = Return p0
    /\ releases_tracked p0 cs = true
    /\ p = run p0 cs.

(** The cached index and the recorded indices are slots of the pool. *)
Record within_capacity (p : linear_allocator) : Prop := mk_within_capacity {
  cap_cache : freedIndex_ p = 0 \/ 0 < freedIndex_ p < count_ p;
  cap_index : forall a i,
    reserved_blocks_indices_ p !! a = Some i -> 0 <= i < count_ p
}.

(** Slot [i] is occupied and no address of the reverse index leads to it. *)
Definition orphan (p : linear_allocator) (i : Z) : Prop :=
  blocks_status_ p !! Z.to_nat i = Some true
  /\ forall a, reserved_blocks_indices_ p !! a <> Some i.

Definition is_allocate (c : call) : bool :=
  match c with
  | Allocate _ => true
  | Deallocate _ _ => false
  end.

(** * Properties *)

(** Reduce the projections of an explicit record, nothing else. *)
Ltac fields :=
  cbn [count_ elementSize_ available_count_ buffer_ blocks_status_
       freedIndex_ reserved_blocks_indices_
       set_available_count set_freedIndex reserve snd fst].

(** ** The embedding at work *)

Example construct_fresh :
  construct (heap_at 4096) 8 16 = Return (fresh 4096 16).
Proof. reflexivity. Qed.

Example fresh_allocate :
  allocate (fresh 4096 16) 1
  = (Return 4096,
     mk_linear_allocator 16 8 15 4096 (<[0%nat := true]> bitset.create) 0
       {[ 4096 := 0 ]}).
Proof. vm_compute. reflexivity. Qed.

(** The scenario of [main.cpp]: sixteen blocks, one taken and given back. *)
Example main_scenario :
  let p0 := fresh 4096 16 in
  let p1 := snd (allocate p0 1) in
  let p2 := snd (deallocate p1 4096 1) in
  available_size p0 = 16 /\ available_size p1 = 15 /\ available_size p2 = 16.
Proof. vm_compute. auto. Qed.

(** ** The bitset *)

Section bitset_facts.

Implicit Types (b : bitset.t) (i : nat).

Lemma count_nonneg b : 0 <= bitset.count b.
Proof. induction b as [|[] b IH]; simpl; lia. Qed.

Lemma count_le_length b : bitset.count b <= Z.of_nat (length b).
Proof. induction b as [|[] b IH]; simpl length; simpl bitset.count; lia. Qed.

Lemma count_replicate_false (n : nat) : bitset.count (replicate n false) = 0.
Proof. induction n as [|n IH]; simpl; auto. Qed.

Lemma count_insert b i (old new : bool) :
  b !! i = Some old ->
  bitset.count (<[i := new]> b)
  = bitset.count b - Z.b2z old + Z.b2z new.
Proof.
  revert i. induction b as [|x b IH]; intros [|i] Hi; simpl in Hi; try discriminate.
  - injection Hi as ->. destruct old, new; simpl; lia.
  - specialize (IH i Hi). change (<[S i := new]> (x :: b)) with (x :: <[i := new]> b).
    destruct x; simpl bitset.count; rewrite IH; lia.
Qed.

(** If the first [n] bits are all set, at least [n] bits are set. *)
Lemma count_prefix_full b (n : nat) :
  (forall i, (i < n)%nat -> b !! i = Some true) ->
  Z.of_nat n <= bitset.count b.
Proof.
  revert n. induction b as [|x b IH]; intros n Hfull.
  - destruct n as [|n]; [simpl; lia|].
    specialize (Hfull O ltac:(lia)). discriminate.
  - destruct n as [|n].
    + pose proof (count_nonneg (x :: b)). lia.
    + pose proof (Hfull O ltac:(lia)) as H0. simpl in H0. injection H0 as ->.
      assert (Z.of_nat n <= bitset.count b).
      { apply IH. intros i Hi. apply (Hfull (S i)). lia. }
      simpl bitset.count. lia.
Qed.

Lemma test_Some b (pos : Z) (v : bool) :
  0 <= pos ->
  bitset.test b pos = Some v ->
  pos < OBJECTS_LIMIT /\ b !! Z.to_nat pos = Some v.
Proof.
  unfold bitset.test. intros Hpos.
  destruct (OBJECTS_LIMIT <=? pos) eqn:E; [discriminate|].
  apply Z.leb_gt in E. auto.
Qed.

Lemma test_in_range b (pos : Z) :
  length b = Z.to_nat OBJECTS_LIMIT ->
  0 <= pos < OBJECTS_LIMIT ->
  exists v, bitset.test b pos = Some v /\ b !! Z.to_nat pos = Some v.
Proof.
  intros Hlen Hpos. unfold bitset.test.
  destruct (OBJECTS_LIMIT <=? pos) eqn:E; [apply Z.leb_le in E; lia|].
  destruct (lookup_lt_is_Some_2 b (Z.to_nat pos)) as [v Hv]; [lia|].
  exists v. auto.
Qed.

End bitset_facts.

(** ** The scan *)

Section scan_facts.

Implicit Types (p : linear_allocator) (i j : Z).

Lemma wrap_small x : is_size_t x -> wrap x = x.
Proof. unfold is_size_t, wrap. intros H. apply Z.mod_small. exact H. Qed.

Lemma limit_is_size_t x : 0 <= x <= OBJECTS_LIMIT -> is_size_t x.
Proof. unfold is_size_t, OBJECTS_LIMIT, size_max. lia. Qed.

(** A scan that returns has found a clear bit at some [j] at or after its
    starting point, has set that bit and recorded [j] in the reverse index
    under the address [block_ptr p], which it returns. *)
Lemma search_returns remaining i p a p' :
  0 <= i ->
  search remaining i p = (Return a, p') ->
  exists j, i <= j < i + Z.of_nat remaining
    /\ bitset.test (blocks_status_ p) j = Some false
    /\ (forall k, i <= k < j -> bitset.test (blocks_status_ p) k = Some true)
    /\ a = block_ptr p
    /\ p' = reserve p j (block_ptr p).
Proof.
  revert i. induction remaining as [|n IH]; intros i Hi Hs; simpl in Hs.
  - discriminate.
  - destruct (bitset.test (blocks_status_ p) i) as [[|]|] eqn:Ht; try discriminate.
    + destruct (test_Some _ _ _ Hi Ht) as [Hlim _].
      rewrite wrap_small in Hs by (apply limit_is_size_t; lia).
      destruct (IH (i + 1) ltac:(lia) Hs) as (j & Hj & Hclear & Hbefore & Ha & Hp).
      exists j. split; [lia|]. split; [exact Hclear|]. split; [|auto].
      intros k Hk. destruct (decide (k = i)) as [->|Hne]; [exact Ht|].
      apply Hbefore. lia.
    + injection Hs as <- <-. exists i.
      split; [lia|]. split; [exact Ht|]. split; [intros k Hk; lia|auto].
Qed.

(** Within the width of the bitset the scan either finds the first clear
    bit or runs through a range of set bits and throws [bad_alloc]. *)
Lemma search_in_range remaining i p :
  length (blocks_status_ p) = Z.to_nat OBJECTS_LIMIT ->
  0 <= i ->
  i + Z.of_nat remaining <= OBJECTS_LIMIT ->
  (exists j, i <= j < i + Z.of_nat remaining
     /\ blocks_status_ p !! Z.to_nat j = Some false
     /\ search remaining i p = (Return (block_ptr p), reserve p j (block_ptr p)))
  \/ ((forall k, i <= k < i + Z.of_nat remaining ->
         blocks_status_ p !! Z.to_nat k = Some true)
      /\ search remaining i p = (Throw bad_alloc, p)).
Proof.
  intros Hlen. revert i. induction remaining as [|n IH]; intros i Hi Hend.
  - right. split; [intros k Hk; lia | reflexivity].
  - destruct (test_in_range (blocks_status_ p) i Hlen ltac:(lia)) as (v & Ht & Hv).
    simpl search. rewrite Ht. destruct v.
    + rewrite wrap_small by (apply limit_is_size_t; lia).
      destruct (IH (i + 1) ltac:(lia) ltac:(lia)) as [(j & Hj & Hclear & Hs)|[Hfull Hs]].
      * left. exists j. split; [lia|auto].
      * right. split; [|exact Hs].
        intros k Hk. destruct (decide (k = i)) as [->|Hne]; [exact Hv|].
        apply Hfull. lia.
    + left. exists i. split; [lia|auto].
Qed.

End scan_facts.

Section reverse_index_facts.

Variables (b : list bool) (m : gmap Z Z).

Hypothesis occupied : forall a i,
  m !! a = Some i -> 0 <= i /\ b !! Z.to_nat i = Some true.

Hypothesis distinct : forall a a' i,
  m !! a = Some i -> m !! a' = Some i -> a = a'.

Lemma occupied_after_reserve j ptr_ a i :
  0 <= j ->
  b !! Z.to_nat j = Some false ->
  <[ptr_ := j]> m !! a = Some i ->
  0 <= i /\ bitset.set b j true !! Z.to_nat i = Some true.
Proof.
  intros Hj Hclear Hlook. unfold bitset.set.
  destruct (decide (ptr_ = a)) as [->|Hne].
  - rewrite lookup_insert_eq in Hlook. injection Hlook as <-.
    split; [exact Hj|]. apply list_lookup_insert_eq.
    eapply lookup_lt_Some, Hclear.
  - rewrite lookup_insert_ne in Hlook by exact Hne.
    destruct (occupied a i Hlook) as [Hi Hset]. split; [exact Hi|].
    rewrite list_lookup_insert_ne; [exact Hset|].
    intros Heq. rewrite Heq in Hclear. congruence.
Qed.

Lemma distinct_after_reserve j ptr_ a a' i :
  b !! Z.to_nat j = Some false ->
  <[ptr_ := j]> m !! a = Some i ->
  <[ptr_ := j]> m !! a' = Some i ->
  a = a'.
Proof.
  intros Hclear Ha Ha'.
  assert (Hfresh : forall x, m !! x = Some j -> False).
  { intros x Hx. destruct (occupied x j Hx) as [_ Hset]. congruence. }
  rewrite lookup_insert in Ha, Ha'.
  destruct (decide (ptr_ = a)) as [Heq|Hne], (decide (ptr_ = a')) as [Heq'|Hne'].
  - congruence.
  - injection Ha as <-. destruct (Hfresh _ Ha').
  - injection Ha' as <-. destruct (Hfresh _ Ha).
  - exact (distinct a a' i Ha Ha').
Qed.

Lemma occupied_after_release ptr_ index_ a i :
  m !! ptr_ = Some index_ ->
  delete ptr_ m !! a = Some i ->
  0 <= i /\ bitset.set b index_ false !! Z.to_nat i = Some true.
Proof.
  intros Hptr Hlook. unfold bitset.set.
  destruct (decide (ptr_ = a)) as [->|Hne].
  - rewrite lookup_delete_eq in Hlook. discriminate.
  - rewrite lookup_delete_ne in Hlook by exact Hne.
    destruct (occupied a i Hlook) as [Hi Hset]. split; [exact Hi|].
    destruct (occupied ptr_ index_ Hptr) as [Hindex _].
    rewrite list_lookup_insert_ne; [exact Hset|].
    intros Heq. apply Hne. apply (distinct ptr_ a i); [|exact Hlook].
    rewrite Hptr. f_equal. lia.
Qed.

Lemma distinct_after_release ptr_ a a' i :
  delete ptr_ m !! a = Some i ->
  delete ptr_ m !! a' = Some i ->
  a = a'.
Proof.
  intros Ha Ha'.
  apply lookup_delete_Some in Ha as [_ Ha].
  apply lookup_delete_Some in Ha' as [_ Ha'].
  exact (distinct a a' i Ha Ha').
Qed.

End reverse_index_facts.

Section preservation.

Implicit Types (p : linear_allocator).

Lemma consistent_counter p : consistent p -> counter_matches_bitmap p.
Proof. intros [_ _ _ Hc _ _ _]. unfold counter_matches_bitmap. lia. Qed.

Lemma construct_consistent malloc sizeof_T pCount_ p :
  0 <= pCount_ <= OBJECTS_LIMIT ->
  construct malloc sizeof_T pCount_ = Return p ->
  consistent p.
Proof.
  unfold construct. intros Hcap Hp.
  destruct (_ =? nullptr); [discriminate|]. injection Hp as <-.
  split; fields.
  - exact Hcap.
  - unfold bitset.create. apply length_replicate.
  - lia.
  - unfold bitset.create. rewrite count_replicate_false. lia.
  - unfold OBJECTS_LIMIT. lia.
  - intros a i Hlook. rewrite lookup_empty in Hlook. discriminate.
  - intros a a' i Hlook. rewrite lookup_empty in Hlook. discriminate.
Qed.

Lemma bookkeeping_set_freedIndex debt p i :
  0 <= i < OBJECTS_LIMIT ->
  bookkeeping debt p -> bookkeeping debt (set_freedIndex p i).
Proof. intros Hi [H1 H2 H0 H3 H4 H5 H6]. split; fields; auto. Qed.

(** Taking a block from the counter opens a debt of one. *)
Lemma bookkeeping_take p :
  1 <= available_count_ p ->
  consistent p ->
  bookkeeping 1 (set_available_count p (wrap (available_count_ p - 1))).
Proof.
  intros Havail [H1 H2 H0 H3 H4 H5 H6].
  pose proof (count_nonneg (blocks_status_ p)).
  assert (Hw : wrap (available_count_ p - 1) = available_count_ p - 1).
  { apply wrap_small, limit_is_size_t. lia. }
  split; fields; auto; rewrite Hw; lia.
Qed.

(** Reserving a slot whose bit is clear settles the debt. *)
Lemma bookkeeping_reserve p j ptr_ :
  0 <= j ->
  blocks_status_ p !! Z.to_nat j = Some false ->
  bookkeeping 1 p ->
  consistent (reserve p j ptr_).
Proof.
  intros Hj Hclear [H1 H2 H0 H3 H4 H5 H6]. split; fields.
  - exact H1.
  - unfold bitset.set. rewrite length_insert. exact H2.
  - exact H0.
  - unfold bitset.set. rewrite (count_insert _ _ false true Hclear). simpl. lia.
  - exact H4.
  - intros a i. apply occupied_after_reserve; assumption.
  - intros a a' i. apply (distinct_after_reserve _ _ H5 H6). exact Hclear.
Qed.

(** With a debt of one, some bit below the capacity is clear: the scan
    cannot come back empty-handed. *)
Lemma search_finds p :
  bookkeeping 1 p ->
  exists j, 0 <= j < count_ p
    /\ blocks_status_ p !! Z.to_nat j = Some false
    /\ search (Z.to_nat (count_ p)) 0 p
       = (Return (block_ptr p), reserve p j (block_ptr p)).
Proof.
  intros [H1 H2 H0 H3 H4 H5 H6].
  destruct (search_in_range (Z.to_nat (count_ p)) 0 p H2 ltac:(lia) ltac:(lia))
    as [(j & Hj & Hclear & Hs)|[Hfull _]].
  - exists j. split; [lia|auto].
  - exfalso.
    assert (Z.of_nat (Z.to_nat (count_ p)) <= bitset.count (blocks_status_ p)).
    { apply count_prefix_full. intros i Hi.
      rewrite <- (Nat2Z.id i). apply Hfull. lia. }
    lia.
Qed.

Lemma allocate_consistent p pCount :
  consistent p -> consistent (snd (allocate p pCount)).
Proof.
  intros Hp. unfold allocate.
  destruct (available_count_ p <? 1) eqn:Havail; [exact Hp|].
  destruct (pCount >? 1) eqn:Hmany; [exact Hp|].
  destruct (pCount <? 1) eqn:Hnone; [exact Hp|].
  apply Z.ltb_ge in Havail, Hnone. rewrite Z.gtb_ltb in Hmany. apply Z.ltb_ge in Hmany.
  assert (pCount = 1) as -> by lia.
  pose proof (bookkeeping_take p Havail Hp) as Hp1.
  set (p1 := set_available_count p (wrap (available_count_ p - 1))) in *.
  cbv zeta.
  destruct (freedIndex_ p1 >? 0) eqn:Hcache.
  - rewrite Z.gtb_ltb in Hcache. apply Z.ltb_lt in Hcache.
    destruct (test_in_range (blocks_status_ p1) (freedIndex_ p1)) as (v & Ht & Hv).
    { apply Hp1. }
    { pose proof (cons_cache _ _ Hp1). lia. }
    rewrite Ht. destruct v.
    + assert (Hp0 : bookkeeping 1 (set_freedIndex p1 0)).
      { apply bookkeeping_set_freedIndex; [unfold OBJECTS_LIMIT; lia|exact Hp1]. }
      destruct (search_finds (set_freedIndex p1 0) Hp0) as (j & Hj & Hclear & Hs).
      rewrite Hs. cbn [snd]. apply bookkeeping_reserve; [lia|exact Hclear|exact Hp0].
    + cbn [snd]. apply bookkeeping_set_freedIndex; [unfold OBJECTS_LIMIT; lia|].
      apply bookkeeping_reserve; [lia|exact Hv|exact Hp1].
  - destruct (search_finds p1 Hp1) as (j & Hj & Hclear & Hs).
    rewrite Hs. cbn [snd]. apply bookkeeping_reserve; [lia|exact Hclear|exact Hp1].
Qed.

Lemma deallocate_consistent p ptr_ :
  is_Some (reserved_blocks_indices_ p !! ptr_) ->
  consistent p -> consistent (snd (deallocate p ptr_ 1)).
Proof.
  intros [index_ Hptr] Hp. unfold deallocate. rewrite Hptr. simpl default.
  destruct Hp as [H1 H2 H0 H3 H4 H5 H6].
  destruct (H5 _ _ Hptr) as [Hindex Hset].
  assert (Hlim : index_ < OBJECTS_LIMIT).
  { apply lookup_lt_Some in Hset. lia. }
  destruct (OBJECTS_LIMIT <=? index_) eqn:E; [apply Z.leb_le in E; lia|].
  pose proof (count_insert _ _ true false Hset) as Hcount.
  pose proof (count_nonneg (<[Z.to_nat index_ := false]> (blocks_status_ p))).
  cbn [Z.b2z] in Hcount.
  assert (Hw : wrap (available_count_ p + 1) = available_count_ p + 1).
  { apply wrap_small, limit_is_size_t. lia. }
  split; fields.
  - exact H1.
  - unfold bitset.set. rewrite length_insert. exact H2.
  - rewrite Hw. lia.
  - unfold bitset.set. rewrite Hcount, Hw. lia.
  - lia.
  - intros a i. apply (occupied_after_release _ _ H5 H6). exact Hptr.
  - intros a a' i. apply (distinct_after_release _ H6).
Qed.

Lemma run_consistent cs : forall p,
  consistent p -> releases_tracked p cs = true -> consistent (run p cs).
Proof.
  induction cs as [|c cs IH]; intros p Hp Hcs; [exact Hp|].
  destruct c as [pCount|ptr_ size_]; simpl in Hcs |- *.
  - apply IH; [|exact Hcs]. apply allocate_consistent, Hp.
  - apply andb_prop in Hcs as [Hcs Hrest]. apply andb_prop in Hcs as [Hone Htracked].
    apply bool_decide_eq_true in Hone, Htracked. subst size_.
    apply IH; [|exact Hrest]. apply deallocate_consistent; assumption.
Qed.

End preservation.

(** ** What a call of allocate or deallocate does *)

Section call_facts.

Implicit Types (p : linear_allocator).

(** A scan that throws has changed nothing. *)
Lemma search_throws remaining : forall i p e p',
  search remaining i p = (Throw e, p') ->
  p' = p /\ (e = bad_alloc \/ e = out_of_range).
Proof.
  induction remaining as [|n IH]; intros i p e p' Hs; simpl in Hs.
  - injection Hs as <- <-. auto.
  - destruct (bitset.test (blocks_status_ p) i) as [[|]|].
    + apply (IH _ _ _ _ Hs).
    + discriminate.
    + injection Hs as <- <-. auto.
Qed.

(** A successful [allocate] of one block has taken one from the counter
    and recorded a position of the bitset under the address it returns. *)
Lemma allocate_records p a p' :
  allocate p 1 = (Return a, p') ->
  1 <= available_count_ p
  /\ available_count_ p' = wrap (available_count_ p - 1)
  /\ exists i, 0 <= i < OBJECTS_LIMIT
       /\ reserved_blocks_indices_ p' !! a = Some i
       /\ blocks_status_ p' = bitset.set (blocks_status_ p) i true.
Proof.
  unfold allocate.
  destruct (available_count_ p <? 1) eqn:Havail; [discriminate|].
  apply Z.ltb_ge in Havail. simpl (1 >? 1). simpl (1 <? 1). cbv zeta.
  set (p1 := set_available_count p (wrap (available_count_ p - 1))).
  assert (Hscan : forall q,
    blocks_status_ q = blocks_status_ p ->
    available_count_ q = available_count_ p1 ->
    search (Z.to_nat (count_ q)) 0 q = (Return a, p') ->
    available_count_ p' = wrap (available_count_ p - 1)
    /\ exists i, 0 <= i < OBJECTS_LIMIT
         /\ reserved_blocks_indices_ p' !! a = Some i
         /\ blocks_status_ p' = bitset.set (blocks_status_ p) i true).
  { intros q Hbits Hcount Hs.
    destruct (search_returns _ _ _ _ _ (Z.le_refl 0) Hs)
      as (j & Hj & Hclear & _ & -> & ->).
    destruct (test_Some _ _ _ (proj1 Hj) Hclear) as [Hlim _].
    split; [exact Hcount|]. exists j. split; [lia|].
    cbn [reserve reserved_blocks_indices_ blocks_status_].
    rewrite lookup_insert_eq, Hbits. auto. }
  intros Hcall. split; [exact Havail|].
  destruct (freedIndex_ p1 >? 0) eqn:Hcache.
  - rewrite Z.gtb_ltb in Hcache. apply Z.ltb_lt in Hcache.
    destruct (bitset.test (blocks_status_ p1) (freedIndex_ p1)) as [[|]|] eqn:Ht.
    + apply (Hscan (set_freedIndex p1 0)); auto.
    + injection Hcall as <- <-.
      destruct (test_Some _ _ _ (Z.lt_le_incl _ _ Hcache) Ht) as [Hlim _].
      split; [reflexivity|]. exists (freedIndex_ p1). split; [lia|].
      cbn [set_freedIndex reserve reserved_blocks_indices_ blocks_status_].
      rewrite lookup_insert_eq. auto.
    + discriminate.
  - apply (Hscan p1); auto.
Qed.

(** On the path through the scan the address is computed after the cached
    index has been found or set to zero: it is the address of the buffer,
    whichever slot the scan has chosen. *)
Lemma allocate_scan_returns_buffer p a p' :
  freedIndex_ p = 0
  \/ (0 < freedIndex_ p
      /\ bitset.test (blocks_status_ p) (freedIndex_ p) = Some true) ->
  allocate p 1 = (Return a, p') ->
  a = buffer_ p
  /\ exists j,
       bitset.test (blocks_status_ p) j = Some false
       /\ (forall k, 0 <= k < j -> bitset.test (blocks_status_ p) k = Some true)
       /\ bitset.test (blocks_status_ p') j = Some true
       /\ reserved_blocks_indices_ p' !! a = Some j.
Proof.
  unfold allocate.
  destruct (available_count_ p <? 1); [discriminate|].
  simpl (1 >? 1). simpl (1 <? 1). cbv zeta.
  set (p1 := set_available_count p (wrap (available_count_ p - 1))).
  assert (Hscan : forall q,
    blocks_status_ q = blocks_status_ p ->
    buffer_ q = buffer_ p ->
    freedIndex_ q = 0 ->
    search (Z.to_nat (count_ q)) 0 q = (Return a, p') ->
    a = buffer_ p
    /\ exists j,
         bitset.test (blocks_status_ p) j = Some false
         /\ (forall k, 0 <= k < j -> bitset.test (blocks_status_ p) k = Some true)
         /\ bitset.test (blocks_status_ p') j = Some true
         /\ reserved_blocks_indices_ p' !! a = Some j).
  { intros q Hbits Hbuf Hzero Hs.
    destruct (search_returns _ _ _ _ _ (Z.le_refl 0) Hs)
      as (j & Hj & Hclear & Hbefore & -> & ->).
    rewrite Hbits in Hclear, Hbefore.
    split.
    { unfold block_ptr, wrap. rewrite Hzero, Hbuf, Z.mul_0_l, Zmod_0_l. lia. }
    exists j. split; [exact Hclear|]. split; [exact Hbefore|].
    cbn [reserve reserved_blocks_indices_ blocks_status_].
    rewrite lookup_insert_eq, Hbits. split; [|reflexivity].
    destruct (test_Some _ _ _ (proj1 Hj) Hclear) as [Hlim Hlook].
    unfold bitset.test, bitset.set in *.
    destruct (OBJECTS_LIMIT <=? j); [discriminate|].
    apply list_lookup_insert_eq. eapply lookup_lt_Some, Hlook. }
  change (freedIndex_ p1) with (freedIndex_ p).
  change (blocks_status_ p1) with (blocks_status_ p).
  intros [Hzero|[Hcache Hset]] Hcall.
  - rewrite Hzero in Hcall. simpl (0 >? 0) in Hcall. apply (Hscan p1); auto.
  - apply Z.ltb_lt in Hcache. rewrite <- Z.gtb_ltb in Hcache.
    rewrite Hcache, Hset in Hcall. apply (Hscan (set_freedIndex p1 0)); auto.
Qed.

(** A call that throws leaves the bitset, the reverse index and the
    constants alone. *)
Lemma allocate_throws p pCount e p' :
  allocate p pCount = (Throw e, p') ->
  (p' = p /\ exists what, e = length_error what)
  \/ ((e = bad_alloc \/ e = out_of_range)
      /\ count_ p' = count_ p
      /\ elementSize_ p' = elementSize_ p
      /\ buffer_ p' = buffer_ p
      /\ blocks_status_ p' = blocks_status_ p
      /\ reserved_blocks_indices_ p' = reserved_blocks_indices_ p).
Proof.
  unfold allocate.
  destruct (available_count_ p <? 1).
  { intros [= <- <-]. left. split; [reflexivity|]. eexists. reflexivity. }
  destruct (pCount >? 1).
  { intros [= <- <-]. left. split; [reflexivity|]. eexists. reflexivity. }
  destruct (pCount <? 1); [discriminate|]. cbv zeta.
  set (p1 := set_available_count p (wrap (available_count_ p - pCount))).
  assert (Hscan : forall q,
    count_ q = count_ p -> elementSize_ q = elementSize_ p ->
    buffer_ q = buffer_ p -> blocks_status_ q = blocks_status_ p ->
    reserved_blocks_indices_ q = reserved_blocks_indices_ p ->
    search (Z.to_nat (count_ q)) 0 q = (Throw e, p') ->
    (e = bad_alloc \/ e = out_of_range)
    /\ count_ p' = count_ p
    /\ elementSize_ p' = elementSize_ p
    /\ buffer_ p' = buffer_ p
    /\ blocks_status_ p' = blocks_status_ p
    /\ reserved_blocks_indices_ p' = reserved_blocks_indices_ p).
  { intros q H1 H2 H3 H4 H5 Hs.
    destruct (search_throws _ _ _ _ _ Hs) as [-> He]. auto 6. }
  intros Hcall. right.
  destruct (freedIndex_ p1 >? 0).
  - destruct (bitset.test (blocks_status_ p1) (freedIndex_ p1)) as [[|]|].
    + apply (Hscan (set_freedIndex p1 0)); auto.
    + discriminate.
    + injection Hcall as <- <-. auto 7.
  - apply (Hscan p1); auto.
Qed.

Lemma deallocate_throws p ptr_ size_ e p' :
  deallocate p ptr_ size_ = (Throw e, p') -> p' = p /\ e = out_of_range.
Proof.
  unfold deallocate.
  destruct (reserved_blocks_indices_ p !! ptr_) as [index_|] eqn:Hlook;
    cbn [from_option id].
  - destruct (OBJECTS_LIMIT <=? index_); [|discriminate].
    intros [= <- <-]. destruct p. auto.
  - simpl (OBJECTS_LIMIT <=? 0). discriminate.
Qed.

(** The reverse index gains at most the address that [allocate] returns
    and loses the address that [deallocate] is given. *)
Lemma allocate_index p pCount a p' :
  allocate p pCount = (Return a, p') ->
  dom (reserved_blocks_indices_ p') ⊆ {[a]} ∪ dom (reserved_blocks_indices_ p).
Proof.
  unfold allocate.
  destruct (available_count_ p <? 1); [discriminate|].
  destruct (pCount >? 1); [discriminate|].
  destruct (pCount <? 1); [intros [= <- <-]; apply union_subseteq_r|]. cbv zeta.
  set (p1 := set_available_count p (wrap (available_count_ p - pCount))).
  assert (Hscan : forall q,
    reserved_blocks_indices_ q = reserved_blocks_indices_ p ->
    search (Z.to_nat (count_ q)) 0 q = (Return a, p') ->
    dom (reserved_blocks_indices_ p') ⊆ {[a]} ∪ dom (reserved_blocks_indices_ p)).
  { intros q Hindex Hs.
    destruct (search_returns _ _ _ _ _ (Z.le_refl 0) Hs)
      as (j & _ & _ & _ & -> & ->).
    cbn [reserve reserved_blocks_indices_]. rewrite dom_insert_L, Hindex. done. }
  intros Hcall.
  destruct (freedIndex_ p1 >? 0).
  - destruct (bitset.test (blocks_status_ p1) (freedIndex_ p1)) as [[|]|].
    + apply (Hscan (set_freedIndex p1 0)); auto.
    + injection Hcall as <- <-.
      cbn [set_freedIndex reserve reserved_blocks_indices_].
      rewrite dom_insert_L. done.
    + discriminate.
  - apply (Hscan p1); auto.
Qed.

Lemma deallocate_index p ptr_ size_ p' :
  deallocate p ptr_ size_ = (Return (), p') ->
  dom (reserved_blocks_indices_ p') ⊆ dom (reserved_blocks_indices_ p) ∖ {[ptr_]}.
Proof.
  unfold deallocate.
  destruct (OBJECTS_LIMIT <=? _); [discriminate|]. intros [= <-].
  cbn [reserved_blocks_indices_]. rewrite dom_delete_L.
  destruct (reserved_blocks_indices_ p !! ptr_); [done|].
  rewrite dom_insert_L. intros x [[Hx|Hx]%elem_of_union Hne]%elem_of_difference.
  - contradiction.
  - apply elem_of_difference. auto.
Qed.

(** Whatever the calls, the reverse index holds only addresses that the
    caller holds. *)
Lemma index_within_outstanding cs : forall p held,
  dom (reserved_blocks_indices_ p) ⊆ held ->
  dom (reserved_blocks_indices_ (run p cs)) ⊆ outstanding p cs held.
Proof.
  induction cs as [|c cs IH]; intros p held Hheld; [exact Hheld|].
  cbn [run fold_left outstanding]. apply IH.
  destruct c as [pCount|ptr_ size_]; cbn [exec snd].
  - destruct (allocate p pCount) as [[a|e] p'] eqn:Hcall; cbn [fst snd].
    + etrans; [exact (allocate_index _ _ _ _ Hcall)|].
      apply union_mono_l, Hheld.
    + destruct (allocate_throws _ _ _ _ Hcall)
        as [[-> _]|(_ & _ & _ & _ & _ & ->)]; exact Hheld.
  - destruct (deallocate p ptr_ size_) as [[[]|e] p'] eqn:Hcall; cbn [fst snd].
    + etrans; [exact (deallocate_index _ _ _ _ Hcall)|].
      apply difference_mono_r, Hheld.
    + destruct (deallocate_throws _ _ _ _ _ Hcall) as [-> _]. exact Hheld.
Qed.

End call_facts.

(** * The properties of the specification *)

(** ** C1: the slot chosen by the scan and the address returned *)

(** C1 (evaluated where it fails).  A pool of two blocks of eight bytes at
    address 4096 with slot 0 taken: the next [allocate] goes through the
    scan and chooses slot 1.  It sets bit 1 and records slot 1 in the
    reverse index, but the address it returns and records is that of slot
    0, not that of slot 1. *)
Theorem allocate_scan_returns_first_slot_address :
  let p := snd (allocate (fresh 4096 2) 1) in
  let r := allocate p 1 in
  freedIndex_ p = 0
  /\ bitset.test (blocks_status_ p) 0 = Some true
  /\ bitset.test (blocks_status_ p) 1 = Some false
  /\ fst r = Return (slot_address p 0)
  /\ bitset.test (blocks_status_ (snd r)) 1 = Some true
  /\ reserved_blocks_indices_ (snd r) !! slot_address p 0 = Some 1
  /\ slot_address p 0 = 4096
  /\ slot_address p 1 = 4104.
Proof. vm_compute. repeat split; reflexivity. Qed.

(** ** C2: deallocate of an address the pool does not hold *)

(** C2 (as stated, refuted).  Neither an address that [allocate] never
    returned (5000 in a new pool) nor one that was already deallocated
    (4096, allocated once and released twice) makes [deallocate] throw,
    and the counter goes from 16 to 17. *)
Lemma deallocate_unknown_address_accepted :
  let p := fresh 4096 16 in
  let q := run p [Allocate 1; Deallocate 4096 1] in
  reserved_blocks_indices_ p !! 5000 = None
  /\ ~ (threw (fst (deallocate p 5000 1)) = true
        /\ available_size (snd (deallocate p 5000 1)) = available_size p)
  /\ fst (allocate p 1) = Return 4096
  /\ ~ (threw (fst (deallocate q 4096 1)) = true
        /\ available_size (snd (deallocate q 4096 1)) = available_size q).
Proof.
  cbv zeta. split; [reflexivity|]. split; [|split; [vm_compute; reflexivity|]].
  - intros [Hthrew _]. vm_compute in Hthrew. discriminate.
  - intros [Hthrew _]. vm_compute in Hthrew. discriminate.
Qed.

(** A miss in the reverse index: the entry that the lookup creates is
    erased again, bit 0 is cleared and the counter grows. *)
Lemma deallocate_miss (p : linear_allocator) (ptr_ size_ : Z) :
  reserved_blocks_indices_ p !! ptr_ = None ->
  deallocate p ptr_ size_
  = (Return (),
     mk_linear_allocator (count_ p) (elementSize_ p)
       (wrap (available_count_ p + size_)) (buffer_ p)
       (bitset.set (blocks_status_ p) 0 false) 0
       (reserved_blocks_indices_ p)).
Proof.
  intros Hmiss. unfold deallocate. rewrite Hmiss. cbn [from_option id].
  simpl (OBJECTS_LIMIT <=? 0). rewrite delete_insert_id by exact Hmiss.
  reflexivity.
Qed.

(** C2 (amended).  In a pool that has gone through any calls since its
    construction, [deallocate] of an address that [allocate] has never
    returned, or has not returned again since it was last released,
    returns normally: the reverse index is as before, bit 0 is cleared,
    the cached index becomes 0 and the counter grows by [size_] modulo
    [2^64]. *)
Theorem deallocate_unheld (malloc : Z -> Z) (sizeof_T pCount_ : Z)
    (p0 : linear_allocator) (cs : list call) (ptr_ size_ : Z) :
  construct malloc sizeof_T pCount_ = Return p0 ->
  ptr_ ∉ outstanding p0 cs ∅ ->
  deallocate (run p0 cs) ptr_ size_
  = (Return (),
     mk_linear_allocator (count_ (run p0 cs)) (elementSize_ (run p0 cs))
       (wrap (available_count_ (run p0 cs) + size_)) (buffer_ (run p0 cs))
       (bitset.set (blocks_status_ (run p0 cs)) 0 false) 0
       (reserved_blocks_indices_ (run p0 cs))).
Proof.
  intros Hnew Hunheld. apply deallocate_miss.
  apply not_elem_of_dom. intros Hin. apply Hunheld.
  apply (index_within_outstanding cs p0 ∅); [|exact Hin].
  unfold construct in Hnew. destruct (_ =? nullptr); [discriminate|].
  injection Hnew as <-. cbn [reserved_blocks_indices_]. rewrite dom_empty_L. done.
Qed.

Lemma deallocate_unheld_witness :
  let p0 := fresh 4096 16 in
  let cs := [Allocate 1; Deallocate 4096 1] in
  construct (heap_at 4096) 8 16 = Return p0
  /\ (4096 ∉ outstanding p0 cs ∅)
  /\ deallocate (run p0 cs) 4096 1
     = (Return (),
        mk_linear_allocator (count_ (run p0 cs)) (elementSize_ (run p0 cs))
          (wrap (available_count_ (run p0 cs) + 1)) (buffer_ (run p0 cs))
          (bitset.set (blocks_status_ (run p0 cs)) 0 false) 0
          (reserved_blocks_indices_ (run p0 cs))).
Proof.
  cbv zeta.
  assert (Hunheld : 4096 ∉ outstanding (fresh 4096 16)
                             [Allocate 1; Deallocate 4096 1] ∅).
  { refine (bool_decide_unpack _ _). vm_compute. exact I. }
  split; [reflexivity|]. split; [exact Hunheld|].
  exact (deallocate_unheld (heap_at 4096) 8 16 (fresh 4096 16)
           [Allocate 1; Deallocate 4096 1] 4096 1 eq_refl Hunheld).
Defined.

(** ** C3: what a failed call leaves behind *)

(** C3 (as stated, refuted).  In that pool [allocate] throws [bad_alloc]
    after the counter has gone from 1 to 0: the failed call has changed
    the state. *)
Lemma allocate_failure_not_atomic :
  let p := three_blocks_miscounted in
  exec p (Allocate 1) = (Throw bad_alloc, snd (exec p (Allocate 1)))
  /\ available_count_ p = 1
  /\ available_count_ (snd (exec p (Allocate 1))) = 0
  /\ snd (exec p (Allocate 1)) <> p.
Proof.
  cbv zeta. split; [vm_compute; reflexivity|].
  split; [vm_compute; reflexivity|]. split; [vm_compute; reflexivity|].
  intros Heq. apply (f_equal available_count_) in Heq.
  vm_compute in Heq. discriminate.
Qed.

(** C3 (amended).  A call that fails leaves the capacity, the bitset and
    the reverse index as they were; when it is [allocate] failing with a
    length error (pool exhausted, or more than one block requested) or
    [deallocate] failing, the whole state is as it was. *)
Theorem failed_call_state (p : linear_allocator) (c : call)
    (e : exception) (p' : linear_allocator) :
  exec p c = (Throw e, p') ->
  count_ p' = count_ p
  /\ blocks_status_ p' = blocks_status_ p
  /\ reserved_blocks_indices_ p' = reserved_blocks_indices_ p
  /\ ((exists what, e = length_error what)
      \/ (exists ptr_ size_, c = Deallocate ptr_ size_) ->
      p' = p).
Proof.
  destruct c as [pCount|ptr_ size_]; cbn [exec].
  - destruct (allocate p pCount) as [[a|e0] q] eqn:Hcall; cbn [fst snd];
      [discriminate|].
    intros [= -> ->].
    destruct (allocate_throws _ _ _ _ Hcall)
      as [[-> _]|(He & H1 & _ & _ & H4 & H5)].
    + auto.
    + split; [exact H1|]. split; [exact H4|]. split; [exact H5|].
      intros [[what ->]|(ptr_ & size_ & Hc)]; [|discriminate].
      destruct He; discriminate.
  - intros Hcall. destruct (deallocate_throws _ _ _ _ _ Hcall) as [-> _]. auto.
Qed.

Lemma failed_call_state_witness :
  let p := snd (allocate (fresh 4096 1) 1) in
  exec p (Allocate 1) = (Throw maximum_objects_exceeded, p)
  /\ count_ p = count_ p
  /\ blocks_status_ p = blocks_status_ p
  /\ reserved_blocks_indices_ p = reserved_blocks_indices_ p
  /\ ((exists what, maximum_objects_exceeded = length_error what)
      \/ (exists ptr_ size_, Allocate 1 = Deallocate ptr_ size_) ->
      p = p).
Proof.
  cbv zeta. split; [vm_compute; reflexivity|].
  apply (failed_call_state (snd (allocate (fresh 4096 1) 1)) (Allocate 1)
           maximum_objects_exceeded).
  vm_compute. reflexivity.
Defined.

(** ** C4: the counter and the bitset *)

(** C4 (as stated, refuted).  A [deallocate] of an address the pool does
    not hold raises the counter of a new pool of sixteen blocks to 17
    while no bit is set; and a caller that releases every address it has
    received, in a pool of three blocks, ends with three blocks counted as
    available while one bit is still set. *)
Lemma counter_invariant_broken :
  construct (heap_at 4096) 8 16 = Return (fresh 4096 16)
  /\ ~ counter_matches_bitmap (run (fresh 4096 16) [Deallocate 5000 1])
  /\ construct (heap_at 4096) 8 3 = Return (fresh 4096 3)
  /\ ~ counter_matches_bitmap
         (run (fresh 4096 3)
            [Allocate 1; Allocate 1; Allocate 1;
             Deallocate 4096 1; Deallocate 4096 1; Deallocate 4096 1]).
Proof.
  split; [reflexivity|]. split; [|split; [reflexivity|]].
  - unfold counter_matches_bitmap. vm_compute. discriminate.
  - unfold counter_matches_bitmap. vm_compute. discriminate.
Qed.

(** C4 (amended).  In a pool constructed with a capacity of at most
    [OBJECTS_LIMIT], after any sequence of [allocate] calls and of
    [deallocate] calls that release one block at an address the reverse
    index holds at that moment, the counter equals the capacity minus the
    number of bits set. *)
Theorem counter_invariant_tracked (malloc : Z -> Z) (sizeof_T pCount_ : Z)
    (p : linear_allocator) (cs : list call) :
  0 <= pCount_ <= OBJECTS_LIMIT ->
  construct malloc sizeof_T pCount_ = Return p ->
  releases_tracked p cs = true ->
  counter_matches_bitmap (run p cs).
Proof.
  intros Hcap Hnew Hcs. apply consistent_counter, run_consistent; [|exact Hcs].
  exact (construct_consistent _ _ _ _ Hcap Hnew).
Qed.

Lemma counter_invariant_tracked_witness :
  let cs := [Allocate 1; Allocate 1; Deallocate 4096 1; Allocate 1;
             Allocate 2; Allocate 0; Deallocate 4104 1] in
  0 <= 16 <= OBJECTS_LIMIT
  /\ construct (heap_at 4096) 8 16 = Return (fresh 4096 16)
  /\ releases_tracked (fresh 4096 16) cs = true
  /\ counter_matches_bitmap (run (fresh 4096 16) cs).
Proof.
  cbv zeta.
  assert (Hcap : 0 <= 16 <= OBJECTS_LIMIT) by (unfold OBJECTS_LIMIT; lia).
  assert (Hcs : releases_tracked (fresh 4096 16)
                  [Allocate 1; Allocate 1; Deallocate 4096 1; Allocate 1;
                   Allocate 2; Allocate 0; Deallocate 4104 1] = true)
    by (vm_compute; reflexivity).
  split; [exact Hcap|]. split; [reflexivity|]. split; [exact Hcs|].
  exact (counter_invariant_tracked (heap_at 4096) 8 16 (fresh 4096 16) _
           Hcap eq_refl Hcs).
Defined.

(** The bound on the capacity matters: a pool of 321 blocks throws
    [out_of_range] from the bitset on its 321st allocation, with the
    counter already at zero and 320 bits set. *)
Example oversized_pool_loses_count :
  let p := run (fresh 4096 321) (replicate 320 (Allocate 1)) in
  counter_matches_bitmap p
  /\ fst (allocate p 1) = Throw out_of_range
  /\ ~ counter_matches_bitmap (snd (allocate p 1)).
Proof.
  cbv zeta. unfold counter_matches_bitmap.
  split; [vm_compute; reflexivity|]. split; [vm_compute; reflexivity|].
  vm_compute. discriminate.
Qed.

(** ** C5: construction with a capacity beyond the bitset *)

(** C5 (as stated, refuted).  A capacity of 400 exceeds [OBJECTS_LIMIT];
    the constructor returns a pool all the same. *)
Lemma construct_oversized_succeeds :
  OBJECTS_LIMIT < 400
  /\ threw (construct (heap_at 4096) 8 400) = false
  /\ construct (heap_at 4096) 8 400 = Return (fresh 4096 400).
Proof. split; [reflexivity|]. split; reflexivity. Qed.

(** C5 (amended).  For a capacity beyond [OBJECTS_LIMIT] the constructor
    fails exactly when [malloc] returns [nullptr], and then with
    [bad_alloc]; otherwise it produces a pool with that capacity, all of
    it available. *)
Theorem construct_oversized (malloc : Z -> Z) (sizeof_T pCount_ : Z) :
  OBJECTS_LIMIT < pCount_ ->
  (malloc (wrap (sizeof_T * pCount_)) = nullptr
   /\ construct malloc sizeof_T pCount_ = Throw bad_alloc)
  \/ (malloc (wrap (sizeof_T * pCount_)) <> nullptr
      /\ exists p, construct malloc sizeof_T pCount_ = Return p
           /\ count_ p = pCount_
           /\ available_size p = pCount_
           /\ buffer_ p = malloc (wrap (sizeof_T * pCount_))).
Proof.
  intros _. unfold construct.
  assert (Hsize : wrap (wrap (sizeof_T * pCount_) * 1) = wrap (sizeof_T * pCount_)).
  { rewrite Z.mul_1_r. unfold wrap. apply Zmod_mod. }
  rewrite Hsize.
  destruct (malloc (wrap (sizeof_T * pCount_)) =? nullptr) eqn:Hnull.
  - left. apply Z.eqb_eq in Hnull. auto.
  - right. apply Z.eqb_neq in Hnull. split; [exact Hnull|].
    eexists. split; [reflexivity|]. auto.
Qed.

Lemma construct_oversized_witness :
  OBJECTS_LIMIT < 400
  /\ ((heap_at 4096 (wrap (8 * 400)) = nullptr
       /\ construct (heap_at 4096) 8 400 = Throw bad_alloc)
      \/ (heap_at 4096 (wrap (8 * 400)) <> nullptr
          /\ exists p, construct (heap_at 4096) 8 400 = Return p
               /\ count_ p = 400
               /\ available_size p = 400
               /\ buffer_ p = heap_at 4096 (wrap (8 * 400)))).
Proof.
  split; [reflexivity|].
  apply (construct_oversized (heap_at 4096) 8 400). reflexivity.
Defined.

(** ** C6 and C7: requests for several blocks or for none *)

(** C6 (as stated, refuted).  On an exhausted pool a request for two
    blocks fails with the exhaustion message, not with the one about
    several blocks. *)
Lemma allocate_many_exhausted :
  available_size exhausted = 0
  /\ allocate exhausted 2 = (Throw maximum_objects_exceeded, exhausted)
  /\ fst (allocate exhausted 2) <> Throw only_one_object_at_once.
Proof.
  split; [reflexivity|]. split; [vm_compute; reflexivity|].
  vm_compute. discriminate.
Qed.

(** C6 (amended).  A request for more than one block fails with a length
    error and changes nothing: with the message about several blocks when
    a block is available, and with the exhaustion message, whose check
    comes first, when none is. *)
Theorem allocate_many (p : linear_allocator) (pCount : Z) :
  1 < pCount ->
  allocate p pCount
  = (Throw (if available_count_ p <? 1 then maximum_objects_exceeded
            else only_one_object_at_once), p).
Proof.
  intros Hmany. unfold allocate.
  destruct (available_count_ p <? 1); [reflexivity|].
  apply Z.ltb_lt in Hmany. rewrite <- Z.gtb_ltb in Hmany. rewrite Hmany.
  reflexivity.
Qed.

Lemma allocate_many_witness :
  1 < 2
  /\ allocate (fresh 4096 16) 2
     = (Throw (if available_count_ (fresh 4096 16) <? 1
               then maximum_objects_exceeded
               else only_one_object_at_once), fresh 4096 16).
Proof.
  split; [reflexivity|].
  apply (allocate_many (fresh 4096 16) 2). reflexivity.
Defined.

(** C7 (as stated, refuted).  On an exhausted pool a request for zero
    blocks throws the exhaustion error instead of returning [nullptr]. *)
Lemma allocate_zero_exhausted :
  available_size exhausted = 0
  /\ allocate exhausted 0 = (Throw maximum_objects_exceeded, exhausted)
  /\ fst (allocate exhausted 0) <> Return nullptr.
Proof.
  split; [reflexivity|]. split; [vm_compute; reflexivity|].
  vm_compute. discriminate.
Qed.

(** C7 (amended).  A request for zero blocks changes nothing; it returns
    [nullptr] when a block is available and throws the exhaustion error
    when none is. *)
Theorem allocate_zero (p : linear_allocator) :
  allocate p 0
  = (if available_count_ p <? 1 then Throw maximum_objects_exceeded
     else Return nullptr, p).
Proof.
  unfold allocate. destruct (available_count_ p <? 1); reflexivity.
Qed.

(** ** C8: equality of allocators *)

(** C8 (as stated, refuted).  Two pools with different buffers compare
    equal. *)
Lemma operator_eq_distinct_pools :
  buffer_ (fresh 4096 16) <> buffer_ (fresh 8192 16)
  /\ operator_eq (fresh 4096 16) (fresh 8192 16) <> false.
Proof. split; vm_compute; discriminate. Qed.

(** C8 (amended).  [operator==] judges every two pools equal, whatever
    their buffers and their bookkeeping. *)
Theorem operator_eq_always_true (this pOther : linear_allocator) :
  operator_eq this pOther = true.
Proof. reflexivity. Qed.

(** ** C9: allocate, then deallocate *)

(** C9.  After a successful [allocate] of one block, [deallocate] of the
    address it returned succeeds and the number of available blocks is
    what it was before the two calls. *)
Theorem allocate_deallocate_round_trip (p : linear_allocator) (a : Z)
    (p1 : linear_allocator) :
  is_size_t (available_count_ p) ->
  allocate p 1 = (Return a, p1) ->
  exists p2, deallocate p1 a 1 = (Return (), p2)
    /\ available_size p2 = available_size p.
Proof.
  intros Hsize Hcall.
  destruct (allocate_records _ _ _ Hcall) as (Havail & Hcount & i & Hi & Hlook & _).
  unfold deallocate. rewrite Hlook. cbn [from_option id].
  destruct (OBJECTS_LIMIT <=? i) eqn:E; [apply Z.leb_le in E; lia|].
  eexists. split; [reflexivity|].
  unfold available_size. cbn [available_count_]. rewrite Hcount.
  unfold is_size_t in Hsize.
  rewrite (wrap_small (available_count_ p - 1)) by (unfold is_size_t; lia).
  replace (available_count_ p - 1 + 1) with (available_count_ p) by lia.
  apply wrap_small. exact Hsize.
Qed.

Lemma allocate_deallocate_round_trip_witness :
  is_size_t (available_count_ (fresh 4096 16))
  /\ allocate (fresh 4096 16) 1 = (Return 4096, snd (allocate (fresh 4096 16) 1))
  /\ exists p2,
       deallocate (snd (allocate (fresh 4096 16) 1)) 4096 1 = (Return (), p2)
       /\ available_size p2 = available_size (fresh 4096 16).
Proof.
  assert (Hsize : is_size_t (available_count_ (fresh 4096 16)))
    by (vm_compute; split; [discriminate|reflexivity]).
  assert (Hcall : allocate (fresh 4096 16) 1
                  = (Return 4096, snd (allocate (fresh 4096 16) 1)))
    by (vm_compute; reflexivity).
  split; [exact Hsize|]. split; [exact Hcall|].
  exact (allocate_deallocate_round_trip (fresh 4096 16) 4096 _ Hsize Hcall).
Defined.

(** ** C10: inequality of allocators *)

(** C10.  The body of [operator!=] is the call of itself on the same two
    operands, and at no depth of unrolling has the call returned. *)
Theorem operator_ne_never_returns (this pOther : linear_allocator) :
  (forall self, operator_ne_body self this pOther = self this pOther)
  /\ forall depth, operator_ne depth this pOther = None.
Proof.
  split; [reflexivity|].
  induction depth as [|depth IH]; [reflexivity|].
  simpl. unfold operator_ne_body. exact IH.
Qed.

(** * Further properties of the pool *)

(** ** The effect of one call *)

Section effects.

Implicit Types (p : linear_allocator).

Lemma search_constants remaining : forall i p r p',
  search remaining i p = (r, p') ->
  count_ p' = count_ p /\ elementSize_ p' = elementSize_ p
  /\ buffer_ p' = buffer_ p.
Proof.
  induction remaining as [|n IH]; intros i p r p' Hs; simpl in Hs.
  - injection Hs as <- <-. auto.
  - destruct (bitset.test (blocks_status_ p) i) as [[|]|].
    + apply (IH _ _ _ _ Hs).
    + injection Hs as <- <-. auto.
    + injection Hs as <- <-. auto.
Qed.

(** [allocate] either hands out no block, and then leaves the bitset and
    the reverse index alone, or hands out one: the slot [j] it reserves
    had its bit clear, and the address is that of the cached slot on the
    fast path and that of the buffer after a scan. *)
Lemma allocate_effect p pCount r p' :
  0 <= freedIndex_ p ->
  allocate p pCount = (r, p') ->
  (count_ p' = count_ p /\ elementSize_ p' = elementSize_ p
   /\ buffer_ p' = buffer_ p
   /\ blocks_status_ p' = blocks_status_ p
   /\ reserved_blocks_indices_ p' = reserved_blocks_indices_ p
   /\ (freedIndex_ p' = freedIndex_ p \/ freedIndex_ p' = 0)
   /\ ((r = Return nullptr /\ pCount < 1) \/ exists e, r = Throw e))
  \/ exists j a,
       r = Return a /\ pCount = 1 /\ 0 <= j
       /\ bitset.test (blocks_status_ p) j = Some false
       /\ p' = mk_linear_allocator (count_ p) (elementSize_ p)
                 (wrap (available_count_ p - 1)) (buffer_ p)
                 (bitset.set (blocks_status_ p) j true) 0
                 (<[a := j]> (reserved_blocks_indices_ p))
       /\ ((0 < freedIndex_ p /\ j = freedIndex_ p /\ a = slot_address p j)
           \/ (j < count_ p /\ a = buffer_ p)).
Proof.
  intros Hcache. unfold allocate.
  destruct (available_count_ p <? 1).
  { intros [= <- <-]. left. repeat (split; [reflexivity|]).
    split; [auto|]. right. eexists. reflexivity. }
  destruct (pCount >? 1) eqn:Hmany.
  { intros [= <- <-]. left. repeat (split; [reflexivity|]).
    split; [auto|]. right. eexists. reflexivity. }
  destruct (pCount <? 1) eqn:Hnone.
  { intros [= <- <-]. left. apply Z.ltb_lt in Hnone.
    repeat (split; [reflexivity|]). auto. }
  rewrite Z.gtb_ltb in Hmany. apply Z.ltb_ge in Hmany, Hnone.
  assert (pCount = 1) as -> by lia. cbv zeta.
  set (p1 := set_available_count p (wrap (available_count_ p - 1))).
  assert (Hscan :
    search (Z.to_nat (count_ p)) 0 (set_freedIndex p1 0) = (r, p') ->
    (count_ p' = count_ p /\ elementSize_ p' = elementSize_ p
     /\ buffer_ p' = buffer_ p
     /\ blocks_status_ p' = blocks_status_ p
     /\ reserved_blocks_indices_ p' = reserved_blocks_indices_ p
     /\ (freedIndex_ p' = freedIndex_ p \/ freedIndex_ p' = 0)
     /\ ((r = Return nullptr /\ 1 < 1) \/ exists e, r = Throw e))
    \/ exists j a,
         r = Return a /\ 1 = 1 /\ 0 <= j
         /\ bitset.test (blocks_status_ p) j = Some false
         /\ p' = mk_linear_allocator (count_ p) (elementSize_ p)
                   (wrap (available_count_ p - 1)) (buffer_ p)
                   (bitset.set (blocks_status_ p) j true) 0
                   (<[a := j]> (reserved_blocks_indices_ p))
         /\ ((0 < freedIndex_ p /\ j = freedIndex_ p /\ a = slot_address p j)
             \/ (j < count_ p /\ a = buffer_ p))).
  { intros Hs. destruct r as [a|e].
    - destruct (search_returns _ _ _ _ _ (Z.le_refl 0) Hs)
        as (j & Hj & Hclear & _ & Ha & Hp).
      assert (Hbuf : block_ptr (set_freedIndex p1 0) = buffer_ p).
      { unfold block_ptr, wrap. cbn [set_freedIndex freedIndex_ buffer_].
        rewrite Z.mul_0_l, Zmod_0_l. unfold p1. cbn [set_available_count buffer_]. lia. }
      rewrite Hbuf in Ha, Hp. subst a p'.
      right. exists j, (buffer_ p).
      split; [reflexivity|]. split; [reflexivity|]. split; [lia|].
      split; [exact Hclear|]. split; [reflexivity|]. right. split; [lia|reflexivity].
    - destruct (search_throws _ _ _ _ _ Hs) as [-> _].
      left. repeat (split; [reflexivity|]). split; [auto|]. right. eexists. reflexivity. }
  change (freedIndex_ p1) with (freedIndex_ p).
  change (blocks_status_ p1) with (blocks_status_ p).
  destruct (freedIndex_ p >? 0) eqn:Hpos.
  - rewrite Z.gtb_ltb in Hpos. apply Z.ltb_lt in Hpos.
    destruct (bitset.test (blocks_status_ p) (freedIndex_ p)) as [[|]|] eqn:Ht.
    + exact Hscan.
    + intros [= <- <-]. right. exists (freedIndex_ p), (slot_address p (freedIndex_ p)).
      split; [reflexivity|]. split; [reflexivity|]. split; [lia|].
      split; [exact Ht|]. split; [reflexivity|]. left. auto.
    + intros [= <- <-]. left. repeat (split; [reflexivity|]).
      split; [auto|]. right. eexists. reflexivity.
  - rewrite Z.gtb_ltb in Hpos. apply Z.ltb_ge in Hpos.
    assert (Hzero : freedIndex_ p = 0) by lia.
    assert (Hsame : p1 = set_freedIndex p1 0).
    { unfold p1, set_freedIndex, set_available_count. cbn. rewrite Hzero. reflexivity. }
    rewrite Hsame at 2. exact Hscan.
Qed.

Lemma exec_constants p c :
  count_ (snd (exec p c)) = count_ p
  /\ elementSize_ (snd (exec p c)) = elementSize_ p
  /\ buffer_ (snd (exec p c)) = buffer_ p.
Proof.
  destruct c as [pCount|ptr_ size_]; cbn [exec snd].
  - unfold allocate.
    destruct (available_count_ p <? 1); [auto|].
    destruct (pCount >? 1); [auto|].
    destruct (pCount <? 1); [auto|]. cbv zeta.
    set (p1 := set_available_count p (wrap (available_count_ p - pCount))).
    destruct (freedIndex_ p1 >? 0).
    + destruct (bitset.test (blocks_status_ p1) (freedIndex_ p1)) as [[|]|]; [|auto|auto].
      destruct (search _ 0 (set_freedIndex p1 0)) as [r p'] eqn:Hs.
      apply search_constants in Hs. exact Hs.
    + destruct (search _ 0 p1) as [r p'] eqn:Hs.
      apply search_constants in Hs. exact Hs.
  - unfold deallocate. destruct (OBJECTS_LIMIT <=? _); auto.
Qed.

Lemma run_constants cs : forall p,
  count_ (run p cs) = count_ p
  /\ elementSize_ (run p cs) = elementSize_ p
  /\ buffer_ (run p cs) = buffer_ p.
Proof.
  induction cs as [|c cs IH]; intros p; [auto|].
  cbn [run fold_left]. destruct (IH (snd (exec p c))) as (H1 & H2 & H3).
  destruct (exec_constants p c) as (H4 & H5 & H6).
  unfold run in *. rewrite H1, H2, H3. auto.
Qed.

Lemma exec_within_capacity p c :
  within_capacity p -> within_capacity (snd (exec p c)).
Proof.
  intros [Hcache Hindex].
  destruct c as [pCount|ptr_ size_]; cbn [exec snd].
  - destruct (allocate p pCount) as [r p'] eqn:Hcall. cbn [snd].
    assert (Hnonneg : 0 <= freedIndex_ p) by lia.
    destruct (allocate_effect _ _ _ _ Hnonneg Hcall)
      as [(H1 & _ & _ & _ & H5 & H6 & _)|(j & a & _ & _ & Hj & _ & -> & Hpath)].
    + split.
      * rewrite H1. destruct H6 as [->| ->]; auto.
      * intros x i. rewrite H1, H5. apply Hindex.
    + split; cbn [freedIndex_ reserved_blocks_indices_ count_]; [auto|].
      intros x i. rewrite lookup_insert. destruct (decide (a = x)).
      * intros [= <-]. lia.
      * apply Hindex.
  - unfold deallocate.
    destruct (reserved_blocks_indices_ p !! ptr_) as [index_|] eqn:Hlook;
      cbn [from_option id].
    + pose proof (Hindex _ _ Hlook).
      destruct (OBJECTS_LIMIT <=? index_); cbn [snd]; split;
        cbn [freedIndex_ reserved_blocks_indices_ count_]; auto; try lia.
      intros x i [_ Hx]%lookup_delete_Some. exact (Hindex _ _ Hx).
    + simpl (OBJECTS_LIMIT <=? 0). cbn [snd]. split;
        cbn [freedIndex_ reserved_blocks_indices_ count_]; [auto|].
      rewrite delete_insert_id by exact Hlook. exact Hindex.
Qed.

Lemma reachable_within_capacity p : reachable p -> within_capacity p.
Proof.
  intros (malloc & sizeof_T & pCount_ & p0 & cs & Hnew & ->).
  assert (H0 : within_capacity p0).
  { unfold construct in Hnew. destruct (_ =? nullptr); [discriminate|].
    injection Hnew as <-. split; cbn [freedIndex_ reserved_blocks_indices_]; [auto|].
    intros a i Hlook. rewrite lookup_empty in Hlook. discriminate. }
  clear Hnew. revert p0 H0. induction cs as [|c cs IH]; intros p0 H0; [exact H0|].
  cbn [run fold_left]. apply IH, exec_within_capacity, H0.
Qed.

Lemma in_use_consistent p : in_use p -> consistent p.
Proof.
  intros (malloc & sizeof_T & pCount_ & p0 & cs & Hcap & Hnew & Hcs & ->).
  apply run_consistent; [|exact Hcs].
  exact (construct_consistent _ _ _ _ Hcap Hnew).
Qed.

Lemma in_use_step p c :
  in_use p -> releases_tracked p [c] = true -> in_use (snd (exec p c)).
Proof.
  intros (malloc & sizeof_T & pCount_ & p0 & cs & Hcap & Hnew & Hcs & ->) Hc.
  exists malloc, sizeof_T, pCount_, p0, (cs ++ [c]).
  split; [exact Hcap|]. split; [exact Hnew|]. split.
  - clear Hnew Hcap. revert p0 Hcs Hc.
    induction cs as [|c' cs IH]; intros p0 Hcs Hc; [exact Hc|].
    destruct c' as [n|a s]; cbn [app releases_tracked] in *.
    + apply IH; assumption.
    + apply andb_prop in Hcs as [Hhead Hrest]. rewrite Hhead. cbn [andb].
      apply IH; assumption.
  - unfold run. rewrite fold_left_app. reflexivity.
Qed.

End effects.

(** ** Pools in intended use *)

Section intended_use.

Implicit Types (p : linear_allocator).

Lemma consistent_bounds p :
  consistent p ->
  0 <= available_count_ p <= count_ p /\ count_ p <= OBJECTS_LIMIT.
Proof.
  intros [H1 _ H0 H3 _ _ _]. pose proof (count_nonneg (blocks_status_ p)). lia.
Qed.

(** In a consistent pool with a block available, [allocate] cannot come
    back with [bad_alloc] or [out_of_range]. *)
Lemma consistent_allocate p :
  consistent p ->
  1 <= available_count_ p ->
  exists a p', allocate p 1 = (Return a, p').
Proof.
  intros Hp Havail. unfold allocate.
  apply Z.ltb_ge in Havail. rewrite Havail. apply Z.ltb_ge in Havail.
  simpl (1 >? 1). simpl (1 <? 1). cbv zeta.
  pose proof (bookkeeping_take p Havail Hp) as Hp1.
  set (p1 := set_available_count p (wrap (available_count_ p - 1))) in *.
  destruct (freedIndex_ p1 >? 0) eqn:Hcache.
  - destruct (test_in_range (blocks_status_ p1) (freedIndex_ p1)) as (v & Ht & _).
    { apply Hp1. }
    { apply Hp1. }
    rewrite Ht. destruct v.
    + assert (Hp0 : bookkeeping 1 (set_freedIndex p1 0)).
      { apply bookkeeping_set_freedIndex; [unfold OBJECTS_LIMIT; lia|exact Hp1]. }
      destruct (search_finds (set_freedIndex p1 0) Hp0) as (j & _ & _ & Hs).
      rewrite Hs. eauto.
    + eauto.
  - destruct (search_finds p1 Hp1) as (j & _ & _ & Hs). rewrite Hs. eauto.
Qed.

Lemma in_use_allocate p :
  in_use p ->
  1 <= available_count_ p ->
  exists a p', allocate p 1 = (Return a, p')
    /\ available_count_ p' = available_count_ p - 1
    /\ in_use p'.
Proof.
  intros Hp Havail.
  destruct (consistent_allocate p (in_use_consistent p Hp) Havail) as (a & p' & Hcall).
  exists a, p'. split; [exact Hcall|].
  destruct (allocate_records _ _ _ Hcall) as (_ & Hcount & _).
  destruct (consistent_bounds p (in_use_consistent p Hp)) as [Hb Hlim].
  split.
  - rewrite Hcount. apply wrap_small, limit_is_size_t. lia.
  - replace p' with (snd (exec p (Allocate 1))) by (cbn [exec snd]; rewrite Hcall; reflexivity).
    apply in_use_step; [exact Hp|reflexivity].
Qed.

Lemma in_use_allocations (n : nat) : forall p,
  in_use p ->
  Z.of_nat n <= available_count_ p ->
  in_use (run p (replicate n (Allocate 1)))
  /\ available_count_ (run p (replicate n (Allocate 1)))
     = available_count_ p - Z.of_nat n.
Proof.
  induction n as [|n IH]; intros p Hp Hn.
  - split; [exact Hp|]. cbn [replicate run fold_left]. lia.
  - destruct (in_use_allocate p Hp ltac:(lia)) as (a & p' & Hcall & Hcount & Hp').
    cbn [replicate run fold_left exec snd]. rewrite Hcall. cbn [snd].
    destruct (IH p' Hp' ltac:(lia)) as [Huse Havail].
    split; [exact Huse|]. unfold run in Havail. rewrite Havail. lia.
Qed.

End intended_use.

(** ** X1: the first block, taken and given back *)

(** X1.  In a newly constructed pool with a capacity of at least one, the
    first [allocate] returns the address of the buffer and leaves one
    block less available; [deallocate] of that address then brings the
    pool back to exactly the state the constructor left it in. *)
Theorem first_block_round_trip (malloc : Z -> Z) (sizeof_T pCount_ : Z)
    (p0 : linear_allocator) :
  1 <= pCount_ < size_max ->
  construct malloc sizeof_T pCount_ = Return p0 ->
  exists p1,
    allocate p0 1 = (Return (buffer_ p0), p1)
    /\ available_size p0 = pCount_
    /\ available_size p1 = pCount_ - 1
    /\ deallocate p1 (buffer_ p0) 1 = (Return (), p0).
Proof.
  intros Hcap Hnew. unfold construct in Hnew.
  destruct (_ =? nullptr); [discriminate|]. injection Hnew as <-.
  set (buffer := malloc _).
  assert (Hw1 : wrap (pCount_ - 1) = pCount_ - 1)
    by (apply wrap_small; unfold is_size_t; lia).
  assert (Hw2 : wrap (pCount_ - 1 + 1) = pCount_)
    by (replace (pCount_ - 1 + 1) with pCount_ by lia;
        apply wrap_small; unfold is_size_t; lia).
  assert (Hptr : buffer + wrap (0 * sizeof_T) = buffer).
  { unfold wrap. rewrite Z.mul_0_l, Zmod_0_l. lia. }
  eexists. split; [|split; [reflexivity|split]].
  - unfold allocate, set_available_count. cbn [available_count_ freedIndex_].
    replace (pCount_ <? 1) with false by (symmetry; apply Z.ltb_ge; lia).
    change (1 >? 1) with false. change (1 <? 1) with false.
    change (0 >? 0) with false. cbv beta iota zeta.
    cbn [count_ elementSize_ available_count_ buffer_
         blocks_status_ freedIndex_ reserved_blocks_indices_].
    destruct (Z.to_nat pCount_) as [|n] eqn:Hn; [lia|].
    cbn [search blocks_status_].
    change (bitset.test bitset.create 0) with (Some false).
    cbv beta iota zeta. unfold block_ptr, reserve.
    cbn [count_ elementSize_ available_count_ buffer_ blocks_status_
         freedIndex_ reserved_blocks_indices_].
    rewrite Hptr, Hw1. reflexivity.
  - reflexivity.
  - unfold deallocate.
    cbn [count_ elementSize_ available_count_ buffer_ blocks_status_
         freedIndex_ reserved_blocks_indices_].
    rewrite lookup_insert_eq. cbn [from_option id].
    change (OBJECTS_LIMIT <=? 0) with false. cbv beta iota.
    rewrite Hw2, delete_insert_id by apply lookup_empty.
    change (bitset.set (bitset.set bitset.create 0 true) 0 false)
      with bitset.create.
    reflexivity.
Qed.

Lemma first_block_round_trip_witness :
  1 <= 16 < size_max
  /\ construct (heap_at 4096) 8 16 = Return (fresh 4096 16)
  /\ exists p1,
       allocate (fresh 4096 16) 1 = (Return (buffer_ (fresh 4096 16)), p1)
       /\ available_size (fresh 4096 16) = 16
       /\ available_size p1 = 16 - 1
       /\ deallocate p1 (buffer_ (fresh 4096 16)) 1 = (Return (), fresh 4096 16).
Proof.
  assert (Hcap : 1 <= 16 < size_max) by (unfold size_max; lia).
  split; [exact Hcap|]. split; [reflexivity|].
  exact (first_block_round_trip (heap_at 4096) 8 16 (fresh 4096 16) Hcap eq_refl).
Defined.

(** ** X2, X3: allocation until the pool is exhausted *)

(** X2.  In a pool in intended use that counts a block as available,
    [allocate] of one block returns an address (it throws neither
    [bad_alloc] nor [out_of_range]), takes exactly one block from the
    counter and leaves a pool in intended use. *)
Theorem allocate_succeeds_while_available (p : linear_allocator) :
  in_use p ->
  1 <= available_size p ->
  exists a p', allocate p 1 = (Return a, p')
    /\ available_size p' = available_size p - 1
    /\ in_use p'.
Proof. exact (in_use_allocate p). Qed.

(** X3.  Allocating as many blocks as a pool in intended use counts as
    available exhausts it: no block is available, all of the capacity is
    reserved, and every further [allocate], whatever the count, throws
    the exhaustion error and changes nothing. *)
Theorem allocations_exhaust (p : linear_allocator) :
  in_use p ->
  let q := run p (replicate (Z.to_nat (available_size p)) (Allocate 1)) in
  available_size q = 0
  /\ reserved_size q = count_ p
  /\ forall pCount, allocate q pCount = (Throw maximum_objects_exceeded, q).
Proof.
  intros Hp q.
  destruct (consistent_bounds p (in_use_consistent p Hp)) as [Hb Hlim].
  destruct (in_use_allocations (Z.to_nat (available_size p)) p Hp) as [Hq Havail].
  { unfold available_size. lia. }
  fold q in Hq, Havail.
  assert (Hzero : available_count_ q = 0) by (unfold available_size in Havail; lia).
  split; [exact Hzero|]. split.
  - unfold reserved_size. rewrite Hzero.
    destruct (run_constants (replicate (Z.to_nat (available_size p)) (Allocate 1)) p)
      as (Hcount & _ & _).
    fold q in Hcount. rewrite Hcount, Z.sub_0_r.
    apply wrap_small, limit_is_size_t. lia.
  - intros pCount. unfold allocate. rewrite Hzero. reflexivity.
Qed.

Lemma allocate_succeeds_while_available_witness :
  in_use (fresh 4096 16)
  /\ 1 <= available_size (fresh 4096 16)
  /\ exists a p', allocate (fresh 4096 16) 1 = (Return a, p')
       /\ available_size p' = available_size (fresh 4096 16) - 1
       /\ in_use p'.
Proof.
  assert (Huse : in_use (fresh 4096 16)).
  { exists (heap_at 4096), 8, 16, (fresh 4096 16), [].
    split; [unfold OBJECTS_LIMIT; lia|]. repeat split. }
  assert (Havail : 1 <= available_size (fresh 4096 16)) by (vm_compute; discriminate).
  split; [exact Huse|]. split; [exact Havail|].
  exact (allocate_succeeds_while_available (fresh 4096 16) Huse Havail).
Defined.

Lemma allocations_exhaust_witness :
  in_use (fresh 4096 3)
  /\ let q := run (fresh 4096 3)
                (replicate (Z.to_nat (available_size (fresh 4096 3))) (Allocate 1)) in
     available_size q = 0
     /\ reserved_size q = count_ (fresh 4096 3)
     /\ forall pCount, allocate q pCount = (Throw maximum_objects_exceeded, q).
Proof.
  assert (Huse : in_use (fresh 4096 3)).
  { exists (heap_at 4096), 8, 3, (fresh 4096 3), [].
    split; [unfold OBJECTS_LIMIT; lia|]. repeat split. }
  split; [exact Huse|].
  exact (allocations_exhaust (fresh 4096 3) Huse).
Defined.

(** ** X4, X5: what the queries and the reverse index say *)

(** X4.  In a pool in intended use the number of reserved blocks that
    [reserved_size] reports is the number of bits set in the bitset, and
    the available and the reserved blocks add up to the capacity. *)
Theorem reserved_size_counts_bits (p : linear_allocator) :
  in_use p ->
  reserved_size p = bitset.count (blocks_status_ p)
  /\ available_size p + reserved_size p = count_ p
  /\ 0 <= available_size p <= count_ p.
Proof.
  intros Hp. pose proof (in_use_consistent p Hp) as Hc.
  destruct (consistent_bounds p Hc) as [Hb Hlim].
  pose proof (consistent_counter p Hc) as Heq. unfold counter_matches_bitmap in Heq.
  unfold reserved_size, available_size.
  rewrite wrap_small by (apply limit_is_size_t; lia). lia.
Qed.

Lemma reserved_size_counts_bits_witness :
  let p := run (fresh 4096 16) [Allocate 1; Allocate 1; Deallocate 4096 1] in
  in_use p
  /\ reserved_size p = bitset.count (blocks_status_ p)
  /\ available_size p + reserved_size p = count_ p
  /\ 0 <= available_size p <= count_ p.
Proof.
  cbv zeta.
  assert (Huse : in_use (run (fresh 4096 16)
                           [Allocate 1; Allocate 1; Deallocate 4096 1])).
  { exists (heap_at 4096), 8, 16, (fresh 4096 16),
      [Allocate 1; Allocate 1; Deallocate 4096 1].
    split; [unfold OBJECTS_LIMIT; lia|]. split; [reflexivity|].
    split; [vm_compute; reflexivity|reflexivity]. }
  split; [exact Huse|].
  exact (reserved_size_counts_bits _ Huse).
Defined.

(** X5.  In a pool in intended use every entry of the reverse index
    names a slot below the capacity whose bit is set, and no two
    addresses name the same slot. *)
Theorem reverse_index_sound (p : linear_allocator) (a i : Z) :
  in_use p ->
  reserved_blocks_indices_ p !! a = Some i ->
  0 <= i < count_ p
  /\ bitset.test (blocks_status_ p) i = Some true
  /\ forall a', reserved_blocks_indices_ p !! a' = Some i -> a' = a.
Proof.
  intros Hp Hlook. pose proof (in_use_consistent p Hp) as Hc.
  assert (Hr : reachable p).
  { destruct Hp as (malloc & sizeof_T & pCount_ & p0 & cs & _ & Hnew & _ & ->).
    exists malloc, sizeof_T, pCount_, p0, cs. auto. }
  destruct (reachable_within_capacity p Hr) as [_ Hindex].
  destruct (cons_occupied _ _ Hc _ _ Hlook) as [Hi Hset].
  destruct (consistent_bounds p Hc) as [_ Hlim].
  split; [exact (Hindex _ _ Hlook)|]. split.
  - unfold bitset.test.
    pose proof (Hindex _ _ Hlook).
    destruct (OBJECTS_LIMIT <=? i) eqn:E; [apply Z.leb_le in E; lia|exact Hset].
  - intros a' Hlook'. exact (cons_distinct _ _ Hc _ _ _ Hlook' Hlook).
Qed.

Lemma reverse_index_sound_witness :
  let p := run (fresh 4096 16) [Allocate 1; Allocate 1] in
  in_use p
  /\ reserved_blocks_indices_ p !! 4096 = Some 1
  /\ 0 <= 1 < count_ p
  /\ bitset.test (blocks_status_ p) 1 = Some true
  /\ forall a', reserved_blocks_indices_ p !! a' = Some 1 -> a' = 4096.
Proof.
  cbv zeta.
  assert (Huse : in_use (run (fresh 4096 16) [Allocate 1; Allocate 1])).
  { exists (heap_at 4096), 8, 16, (fresh 4096 16), [Allocate 1; Allocate 1].
    split; [unfold OBJECTS_LIMIT; lia|]. split; [reflexivity|].
    split; [vm_compute; reflexivity|reflexivity]. }
  assert (Hlook : reserved_blocks_indices_
                    (run (fresh 4096 16) [Allocate 1; Allocate 1]) !! 4096
                  = Some 1) by (vm_compute; reflexivity).
  split; [exact Huse|]. split; [exact Hlook|].
  exact (reverse_index_sound _ 4096 1 Huse Hlook).
Defined.

(** ** X6, X7: the addresses that allocate returns *)

(** X6.  Whatever calls a pool has gone through since its construction,
    an address that [allocate] returns for one block is the address of
    a slot below the capacity: when the buffer size [elementSize_ *
    count_] is representable, the block lies inside the buffer at a
    multiple of the element size. *)
Theorem allocated_block_inside_buffer (p : linear_allocator) (a : Z)
    (p' : linear_allocator) :
  reachable p ->
  0 < elementSize_ p ->
  elementSize_ p * count_ p < size_max ->
  allocate p 1 = (Return a, p') ->
  exists i, 0 <= i < count_ p
    /\ a = buffer_ p + i * elementSize_ p
    /\ buffer_ p <= a
    /\ a + elementSize_ p <= buffer_ p + elementSize_ p * count_ p.
Proof.
  intros Hr Hsize Hfit Hcall.
  destruct (reachable_within_capacity p Hr) as [Hcache _].
  assert (Hnonneg : 0 <= freedIndex_ p) by lia.
  assert (Hslot : forall i, 0 <= i < count_ p ->
            slot_address p i = buffer_ p + i * elementSize_ p).
  { intros i Hi. unfold slot_address. rewrite wrap_small; [reflexivity|].
    unfold is_size_t. nia. }
  destruct (allocate_effect _ _ _ _ Hnonneg Hcall)
    as [(_ & _ & _ & _ & _ & _ & [[[= ->] Hlt]|[e [=]]])
       |(j & a' & [= <-] & _ & Hj & _ & _ & [(Hpos & -> & ->)|[Hlt ->]])].
  - lia.
  - exists (freedIndex_ p). rewrite Hslot by lia.
    split; [lia|]. split; [reflexivity|]. nia.
  - exists 0. split; [lia|]. split; [lia|]. nia.
Qed.

Lemma allocated_block_inside_buffer_witness :
  let p := run (fresh 4096 16) [Allocate 1; Allocate 1; Deallocate 4096 1] in
  reachable p
  /\ 0 < elementSize_ p
  /\ elementSize_ p * count_ p < size_max
  /\ allocate p 1 = (Return 4104, snd (allocate p 1))
  /\ exists i, 0 <= i < count_ p
       /\ 4104 = buffer_ p + i * elementSize_ p
       /\ buffer_ p <= 4104
       /\ 4104 + elementSize_ p <= buffer_ p + elementSize_ p * count_ p.
Proof.
  cbv zeta.
  set (p := run (fresh 4096 16) [Allocate 1; Allocate 1; Deallocate 4096 1]).
  assert (Hr : reachable p).
  { exists (heap_at 4096), 8, 16, (fresh 4096 16),
      [Allocate 1; Allocate 1; Deallocate 4096 1]. split; reflexivity. }
  assert (Hsize : 0 < elementSize_ p) by (vm_compute; reflexivity).
  assert (Hfit : elementSize_ p * count_ p < size_max) by (vm_compute; reflexivity).
  assert (Hcall : allocate p 1 = (Return 4104, snd (allocate p 1)))
    by (vm_compute; reflexivity).
  split; [exact Hr|]. split; [exact Hsize|]. split; [exact Hfit|].
  split; [exact Hcall|].
  exact (allocated_block_inside_buffer p 4104 _ Hr Hsize Hfit Hcall).
Defined.

Section cache_facts.

Implicit Types (p : linear_allocator).

(** While nothing is deallocated the cached index stays zero. *)
Lemma cache_zero_allocations cs : forall p,
  freedIndex_ p = 0 ->
  forallb is_allocate cs = true ->
  freedIndex_ (run p cs) = 0.
Proof.
  induction cs as [|c cs IH]; intros p Hzero Hcs; [exact Hzero|].
  cbn [forallb] in Hcs. apply andb_prop in Hcs as [Hc Hcs].
  destruct c as [pCount|ptr_ size_]; [|discriminate].
  cbn [run fold_left]. apply IH; [|exact Hcs]. cbn [exec snd].
  destruct (allocate p pCount) as [r p'] eqn:Hcall. cbn [snd].
  assert (Hnonneg : 0 <= freedIndex_ p) by lia.
  destruct (allocate_effect _ _ _ _ Hnonneg Hcall)
    as [(_ & _ & _ & _ & _ & [Hsame|Hsame] & _)|(j & a & _ & _ & _ & _ & -> & _)];
    [congruence|exact Hsame|reflexivity].
Qed.

Lemma reachable_buffer p : reachable p -> buffer_ p <> nullptr.
Proof.
  intros (malloc & sizeof_T & pCount_ & p0 & cs & Hnew & ->).
  destruct (run_constants cs p0) as (_ & _ & ->).
  unfold construct in Hnew.
  destruct (_ =? nullptr) eqn:Hnull; [discriminate|].
  injection Hnew as <-. cbn [buffer_]. apply Z.eqb_neq, Hnull.
Qed.

End cache_facts.

(** X7.  As long as a pool has seen no [deallocate] since its
    construction, every address that [allocate] returns for one block is
    the address of the buffer: the blocks handed out share one address. *)
Theorem allocate_without_deallocate_returns_buffer (malloc : Z -> Z)
    (sizeof_T pCount_ : Z) (p0 : linear_allocator) (cs : list call)
    (a : Z) (p' : linear_allocator) :
  construct malloc sizeof_T pCount_ = Return p0 ->
  forallb is_allocate cs = true ->
  allocate (run p0 cs) 1 = (Return a, p') ->
  a = buffer_ p0.
Proof.
  intros Hnew Hcs Hcall.
  assert (Hzero : freedIndex_ p0 = 0).
  { unfold construct in Hnew. destruct (_ =? nullptr); [discriminate|].
    injection Hnew as <-. reflexivity. }
  pose proof (cache_zero_allocations cs p0 Hzero Hcs) as Hcache.
  destruct (allocate_scan_returns_buffer _ _ _ (or_introl Hcache) Hcall) as [-> _].
  apply run_constants.
Qed.

Lemma allocate_without_deallocate_returns_buffer_witness :
  construct (heap_at 4096) 8 16 = Return (fresh 4096 16)
  /\ forallb is_allocate [Allocate 1; Allocate 0; Allocate 1; Allocate 5] = true
  /\ allocate (run (fresh 4096 16) [Allocate 1; Allocate 0; Allocate 1; Allocate 5]) 1
     = (Return 4096,
        snd (allocate (run (fresh 4096 16)
                         [Allocate 1; Allocate 0; Allocate 1; Allocate 5]) 1))
  /\ 4096 = buffer_ (fresh 4096 16).
Proof.
  assert (Hcall : allocate (run (fresh 4096 16)
                              [Allocate 1; Allocate 0; Allocate 1; Allocate 5]) 1
                  = (Return 4096,
                     snd (allocate (run (fresh 4096 16)
                            [Allocate 1; Allocate 0; Allocate 1; Allocate 5]) 1)))
    by (vm_compute; reflexivity).
  split; [reflexivity|]. split; [reflexivity|]. split; [exact Hcall|].
  exact (allocate_without_deallocate_returns_buffer (heap_at 4096) 8 16
           (fresh 4096 16) [Allocate 1; Allocate 0; Allocate 1; Allocate 5]
           4096 _ eq_refl eq_refl Hcall).
Defined.

(** X8.  Whatever calls a pool has gone through since its construction,
    an address that [allocate] returns for one block is not [nullptr],
    addresses being unsigned. *)
Theorem allocate_one_never_null (p : linear_allocator) (a : Z)
    (p' : linear_allocator) :
  reachable p ->
  0 <= buffer_ p ->
  allocate p 1 = (Return a, p') ->
  a <> nullptr.
Proof.
  intros Hr Hbuf Hcall. pose proof (reachable_buffer p Hr) as Hnull.
  destruct (reachable_within_capacity p Hr) as [Hcache _].
  assert (Hnonneg : 0 <= freedIndex_ p) by lia.
  unfold nullptr in *.
  destruct (allocate_effect _ _ _ _ Hnonneg Hcall)
    as [(_ & _ & _ & _ & _ & _ & [[_ Hlt]|[e [=]]])
       |(j & a' & [= <-] & _ & _ & _ & _ & [(_ & _ & ->)|[_ ->]])].
  - lia.
  - unfold slot_address, wrap.
    pose proof (Z.mod_pos_bound (j * elementSize_ p) size_max) as Hmod.
    unfold size_max in *. lia.
  - lia.
Qed.

Lemma allocate_one_never_null_witness :
  reachable (fresh 4096 16)
  /\ 0 <= buffer_ (fresh 4096 16)
  /\ allocate (fresh 4096 16) 1 = (Return 4096, snd (allocate (fresh 4096 16) 1))
  /\ 4096 <> nullptr.
Proof.
  assert (Hr : reachable (fresh 4096 16)).
  { exists (heap_at 4096), 8, 16, (fresh 4096 16), []. split; reflexivity. }
  assert (Hbuf : 0 <= buffer_ (fresh 4096 16)) by (vm_compute; discriminate).
  assert (Hcall : allocate (fresh 4096 16) 1
                  = (Return 4096, snd (allocate (fresh 4096 16) 1)))
    by (vm_compute; reflexivity).
  split; [exact Hr|]. split; [exact Hbuf|]. split; [exact Hcall|].
  exact (allocate_one_never_null (fresh 4096 16) 4096 _ Hr Hbuf Hcall).
Defined.

(** ** X9, X10: a call and its opposite *)

(** X9.  In a pool in intended use, [deallocate] of a recorded address
    whose slot [i] is not slot 0 succeeds, and the next [allocate] takes
    the fast path: it returns the address of slot [i] and leaves the
    counter and the bitset as they were before the two calls, the cache
    cleared and slot [i] recorded under its own address. *)
Theorem deallocate_allocate_reuses_slot (p : linear_allocator) (ptr_ i : Z) :
  in_use p ->
  reserved_blocks_indices_ p !! ptr_ = Some i ->
  0 < i ->
  fst (deallocate p ptr_ 1) = Return ()
  /\ allocate (snd (deallocate p ptr_ 1)) 1
     = (Return (slot_address p i),
        mk_linear_allocator (count_ p) (elementSize_ p) (available_count_ p)
          (buffer_ p) (blocks_status_ p) 0
          (<[slot_address p i := i]> (delete ptr_ (reserved_blocks_indices_ p)))).
Proof.
  intros Hp Hlook Hpos. pose proof (in_use_consistent p Hp) as Hc.
  destruct (consistent_bounds p Hc) as [Hb Hlim].
  destruct (cons_occupied _ _ Hc _ _ Hlook) as [_ Hset].
  assert (Hi : i < OBJECTS_LIMIT).
  { apply lookup_lt_Some in Hset. rewrite (cons_width _ _ Hc) in Hset. lia. }
  assert (Hone : 1 <= bitset.count (blocks_status_ p)).
  { pose proof (count_insert _ _ true false Hset) as Hcount.
    pose proof (count_nonneg (<[Z.to_nat i := false]> (blocks_status_ p))).
    cbn [Z.b2z] in Hcount. lia. }
  pose proof (consistent_counter p Hc) as Heq. unfold counter_matches_bitmap in Heq.
  assert (Hw1 : wrap (available_count_ p + 1) = available_count_ p + 1)
    by (apply wrap_small, limit_is_size_t; lia).
  assert (Hw2 : wrap (available_count_ p + 1 - 1) = available_count_ p).
  { replace (available_count_ p + 1 - 1) with (available_count_ p) by lia.
    apply wrap_small, limit_is_size_t. lia. }
  assert (Htest : bitset.test (bitset.set (blocks_status_ p) i false) i = Some false).
  { unfold bitset.test, bitset.set.
    replace (OBJECTS_LIMIT <=? i) with false by (symmetry; apply Z.leb_gt; lia).
    apply list_lookup_insert_eq. eapply lookup_lt_Some, Hset. }
  assert (Hbits : bitset.set (bitset.set (blocks_status_ p) i false) i true
                  = blocks_status_ p).
  { unfold bitset.set. rewrite list_insert_insert_eq. apply list_insert_id, Hset. }
  unfold deallocate. rewrite Hlook. cbn [from_option id].
  replace (OBJECTS_LIMIT <=? i) with false by (symmetry; apply Z.leb_gt; lia).
  cbn [fst snd]. split; [reflexivity|].
  unfold allocate, set_available_count.
  cbn [count_ elementSize_ available_count_ buffer_ blocks_status_
       freedIndex_ reserved_blocks_indices_].
  rewrite Hw1.
  replace (available_count_ p + 1 <? 1) with false by (symmetry; apply Z.ltb_ge; lia).
  change (1 >? 1) with false. change (1 <? 1) with false. cbv beta iota zeta.
  cbn [count_ elementSize_ available_count_ buffer_ blocks_status_
       freedIndex_ reserved_blocks_indices_].
  replace (i >? 0) with true by (symmetry; rewrite Z.gtb_ltb; apply Z.ltb_lt; lia).
  rewrite Htest. unfold block_ptr, reserve, set_freedIndex, slot_address.
  cbn [count_ elementSize_ available_count_ buffer_ blocks_status_
       freedIndex_ reserved_blocks_indices_].
  rewrite Hbits, Hw2. reflexivity.
Qed.

Lemma deallocate_allocate_reuses_slot_witness :
  let p := run (fresh 4096 16) [Allocate 1; Allocate 1] in
  in_use p
  /\ reserved_blocks_indices_ p !! 4096 = Some 1
  /\ 0 < 1
  /\ fst (deallocate p 4096 1) = Return ()
  /\ allocate (snd (deallocate p 4096 1)) 1
     = (Return (slot_address p 1),
        mk_linear_allocator (count_ p) (elementSize_ p) (available_count_ p)
          (buffer_ p) (blocks_status_ p) 0
          (<[slot_address p 1 := 1]> (delete 4096 (reserved_blocks_indices_ p)))).
Proof.
  cbv zeta.
  assert (Huse : in_use (run (fresh 4096 16) [Allocate 1; Allocate 1])).
  { exists (heap_at 4096), 8, 16, (fresh 4096 16), [Allocate 1; Allocate 1].
    split; [unfold OBJECTS_LIMIT; lia|]. split; [reflexivity|].
    split; [vm_compute; reflexivity|reflexivity]. }
  assert (Hlook : reserved_blocks_indices_
                    (run (fresh 4096 16) [Allocate 1; Allocate 1]) !! 4096
                  = Some 1) by (vm_compute; reflexivity).
  assert (Hpos : 0 < 1) by lia.
  split; [exact Huse|]. split; [exact Hlook|]. split; [exact Hpos|].
  exact (deallocate_allocate_reuses_slot _ 4096 1 Huse Hlook Hpos).
Defined.

(** X10.  In any pool, after a successful [allocate] of one block,
    [deallocate] of the returned address succeeds and restores the
    counter and the bitset; the cache then holds the slot that was
    taken, and the reverse index is the one before the two calls without
    any entry it had under that address. *)
Theorem allocate_deallocate_restores (p : linear_allocator) (a : Z)
    (p1 : linear_allocator) :
  0 <= freedIndex_ p ->
  is_size_t (available_count_ p) ->
  allocate p 1 = (Return a, p1) ->
  exists j,
    bitset.test (blocks_status_ p) j = Some false
    /\ deallocate p1 a 1
       = (Return (),
          mk_linear_allocator (count_ p) (elementSize_ p) (available_count_ p)
            (buffer_ p) (blocks_status_ p) j
            (delete a (reserved_blocks_indices_ p))).
Proof.
  intros Hnonneg Hsize Hcall.
  destruct (allocate_records _ _ _ Hcall) as (Havail & _).
  destruct (allocate_effect _ _ _ _ Hnonneg Hcall)
    as [(_ & _ & _ & _ & _ & _ & [[_ Hlt]|[e [=]]])
       |(j & a' & [= <-] & _ & Hj & Hclear & -> & _)]; [lia|].
  exists j. split; [exact Hclear|].
  destruct (test_Some _ _ _ Hj Hclear) as [Hlim Hbit].
  unfold deallocate.
  cbn [count_ elementSize_ available_count_ buffer_ blocks_status_
       freedIndex_ reserved_blocks_indices_].
  rewrite lookup_insert_eq. cbn [from_option id].
  replace (OBJECTS_LIMIT <=? j) with false by (symmetry; apply Z.leb_gt; lia).
  rewrite delete_insert_eq. unfold bitset.set.
  rewrite list_insert_insert_eq, (list_insert_id _ _ _ Hbit).
  unfold is_size_t in Hsize.
  rewrite (wrap_small (available_count_ p - 1)) by (unfold is_size_t; lia).
  replace (available_count_ p - 1 + 1) with (available_count_ p) by lia.
  rewrite (wrap_small (available_count_ p)) by exact Hsize.
  reflexivity.
Qed.

Lemma allocate_deallocate_restores_witness :
  let p := run (fresh 4096 16) [Allocate 1] in
  0 <= freedIndex_ p
  /\ is_size_t (available_count_ p)
  /\ allocate p 1 = (Return 4096, snd (allocate p 1))
  /\ exists j,
       bitset.test (blocks_status_ p) j = Some false
       /\ deallocate (snd (allocate p 1)) 4096 1
          = (Return (),
             mk_linear_allocator (count_ p) (elementSize_ p) (available_count_ p)
               (buffer_ p) (blocks_status_ p) j
               (delete 4096 (reserved_blocks_indices_ p))).
Proof.
  cbv zeta. set (p := run (fresh 4096 16) [Allocate 1]).
  assert (Hnonneg : 0 <= freedIndex_ p) by (vm_compute; discriminate).
  assert (Hsize : is_size_t (available_count_ p))
    by (vm_compute; split; [discriminate|reflexivity]).
  assert (Hcall : allocate p 1 = (Return 4096, snd (allocate p 1)))
    by (vm_compute; reflexivity).
  split; [exact Hnonneg|]. split; [exact Hsize|]. split; [exact Hcall|].
  exact (allocate_deallocate_restores p 4096 _ Hnonneg Hsize Hcall).
Defined.

(** ** X11: a slot that the reverse index loses *)

Section orphan_facts.

Implicit Types (p : linear_allocator).

Lemma orphan_step p i c :
  consistent p ->
  0 <= i ->
  orphan p i ->
  releases_tracked p [c] = true ->
  orphan (snd (exec p c)) i.
Proof.
  intros Hc Hi [Hset Hnone] Htracked.
  destruct c as [pCount|ptr_ size_]; cbn [exec snd].
  - destruct (allocate p pCount) as [r p'] eqn:Hcall. cbn [snd].
    assert (Hnonneg : 0 <= freedIndex_ p) by apply Hc.
    destruct (allocate_effect _ _ _ _ Hnonneg Hcall)
      as [(_ & _ & _ & Hbits & Hindex & _)|(j & a & _ & _ & Hj & Hclear & -> & _)].
    + split; [rewrite Hbits; exact Hset|]. rewrite Hindex. exact Hnone.
    + destruct (test_Some _ _ _ Hj Hclear) as [_ Hbit].
      split; cbn [blocks_status_ reserved_blocks_indices_].
      * unfold bitset.set. rewrite list_lookup_insert_ne; [exact Hset|].
        intros Heq. rewrite Heq in Hbit. congruence.
      * intros x. rewrite lookup_insert. destruct (decide (a = x)); [|apply Hnone].
        intros [= ->]. congruence.
  - cbn [releases_tracked] in Htracked.
    apply andb_prop in Htracked as [Htracked _].
    apply andb_prop in Htracked as [_ Hheld].
    apply bool_decide_eq_true in Hheld. destruct Hheld as [k Hlook].
    destruct (cons_occupied _ _ Hc _ _ Hlook) as [Hk _].
    unfold deallocate. rewrite Hlook. cbn [from_option id].
    destruct (OBJECTS_LIMIT <=? k); cbn [snd]; split;
      cbn [blocks_status_ reserved_blocks_indices_]; auto.
    + unfold bitset.set. rewrite list_lookup_insert_ne; [exact Hset|].
      intros Heq. apply (Hnone ptr_). rewrite Hlook. f_equal. lia.
    + intros x [_ Hx]%lookup_delete_Some. exact (Hnone x Hx).
Qed.

Lemma orphan_run cs : forall p i,
  consistent p ->
  0 <= i ->
  orphan p i ->
  releases_tracked p cs = true ->
  orphan (run p cs) i.
Proof.
  induction cs as [|c cs IH]; intros p i Hc Hi Ho Hcs; [exact Ho|].
  assert (Hhead : releases_tracked p [c] = true
                  /\ releases_tracked (snd (exec p c)) cs = true).
  { destruct c as [pCount|ptr_ size_]; cbn [releases_tracked] in *.
    - auto.
    - apply andb_prop in Hcs as [Hhead Hrest]. rewrite Hhead. auto. }
  destruct Hhead as [Hhead Hrest].
  cbn [run fold_left]. apply IH; [|exact Hi| |exact Hrest].
  - destruct c as [pCount|ptr_ size_]; cbn [exec snd].
    + apply allocate_consistent, Hc.
    + cbn [releases_tracked] in Hhead.
      apply andb_prop in Hhead as [Hhead _].
      apply andb_prop in Hhead as [Hone Hheld].
      apply bool_decide_eq_true in Hone, Hheld. subst size_.
      apply deallocate_consistent; assumption.
  - apply orphan_step; assumption.
Qed.

(** A scan that succeeds while the reverse index has an entry under the
    address of the buffer replaces that entry: its slot stays occupied
    and no address leads to it any more. *)
Lemma scan_makes_orphan p i a p' :
  consistent p ->
  reserved_blocks_indices_ p !! buffer_ p = Some i ->
  freedIndex_ p = 0
  \/ (0 < freedIndex_ p
      /\ bitset.test (blocks_status_ p) (freedIndex_ p) = Some true) ->
  allocate p 1 = (Return a, p') ->
  orphan p' i.
Proof.
  intros Hc Hlook Hpath Hcall.
  assert (Hnonneg : 0 <= freedIndex_ p) by apply Hc.
  destruct (cons_occupied _ _ Hc _ _ Hlook) as [Hi Hset].
  destruct (allocate_effect _ _ _ _ Hnonneg Hcall)
    as [(_ & _ & _ & _ & _ & _ & [[_ Hlt]|[e [=]]])
       |(j & a' & [= <-] & _ & Hj & Hclear & -> & Hway)]; [lia|].
  destruct (test_Some _ _ _ Hj Hclear) as [_ Hbit].
  assert (Hbuf : a = buffer_ p).
  { destruct Hway as [(Hpos & -> & _)|[_ ->]]; [|reflexivity].
    destruct Hpath as [Hzero|[_ Hstale]]; [lia|congruence]. }
  subst a. split; cbn [blocks_status_ reserved_blocks_indices_].
  - unfold bitset.set. rewrite list_lookup_insert_ne; [exact Hset|].
    intros Heq. rewrite Heq in Hbit. congruence.
  - intros x. rewrite lookup_insert. destruct (decide (buffer_ p = x)) as [<-|Hne].
    + intros [= ->]. congruence.
    + intros Hx. apply Hne. exact (cons_distinct _ _ Hc _ _ _ Hlook Hx).
Qed.

End orphan_facts.

(** X11.  In a pool in intended use whose reverse index has an entry
    under the address of the buffer, a successful [allocate] through the
    scan replaces that entry, and the slot it named is lost: whatever
    [allocate] calls and [deallocate] calls of recorded addresses
    follow, its bit stays set and no address of the reverse index leads
    to it, so it is neither handed out nor released again. *)
Theorem scan_loses_recorded_slot (p : linear_allocator) (i a : Z)
    (p' : linear_allocator) (cs : list call) :
  in_use p ->
  reserved_blocks_indices_ p !! buffer_ p = Some i ->
  freedIndex_ p = 0
  \/ (0 < freedIndex_ p
      /\ bitset.test (blocks_status_ p) (freedIndex_ p) = Some true) ->
  allocate p 1 = (Return a, p') ->
  releases_tracked p' cs = true ->
  orphan (run p' cs) i.
Proof.
  intros Hp Hlook Hpath Hcall Hcs.
  pose proof (in_use_consistent p Hp) as Hc.
  destruct (cons_occupied _ _ Hc _ _ Hlook) as [Hi _].
  apply orphan_run; [|exact Hi| |exact Hcs].
  - replace p' with (snd (allocate p 1)) by (rewrite Hcall; reflexivity).
    apply allocate_consistent, Hc.
  - exact (scan_makes_orphan p i a p' Hc Hlook Hpath Hcall).
Qed.

Lemma scan_loses_recorded_slot_witness :
  let p := run (fresh 4096 3) [Allocate 1] in
  let cs := [Deallocate 4096 1; Allocate 1; Allocate 1] in
  in_use p
  /\ reserved_blocks_indices_ p !! buffer_ p = Some 0
  /\ (freedIndex_ p = 0
      \/ (0 < freedIndex_ p
          /\ bitset.test (blocks_status_ p) (freedIndex_ p) = Some true))
  /\ allocate p 1 = (Return 4096, snd (allocate p 1))
  /\ releases_tracked (snd (allocate p 1)) cs = true
  /\ orphan (run (snd (allocate p 1)) cs) 0.
Proof.
  cbv zeta. set (p := run (fresh 4096 3) [Allocate 1]).
  assert (Huse : in_use p).
  { exists (heap_at 4096), 8, 3, (fresh 4096 3), [Allocate 1].
    split; [unfold OBJECTS_LIMIT; lia|]. split; [reflexivity|].
    split; [vm_compute; reflexivity|reflexivity]. }
  assert (Hlook : reserved_blocks_indices_ p !! buffer_ p = Some 0)
    by (vm_compute; reflexivity).
  assert (Hpath : freedIndex_ p = 0
                  \/ (0 < freedIndex_ p
                      /\ bitset.test (blocks_status_ p) (freedIndex_ p) = Some true))
    by (left; vm_compute; reflexivity).
  assert (Hcall : allocate p 1 = (Return 4096, snd (allocate p 1)))
    by (vm_compute; reflexivity).
  assert (Hcs : releases_tracked (snd (allocate p 1))
                  [Deallocate 4096 1; Allocate 1; Allocate 1] = true)
    by (vm_compute; reflexivity).
  split; [exact Huse|]. split; [exact Hlook|]. split; [exact Hpath|].
  split; [exact Hcall|]. split; [exact Hcs|].
  exact (scan_loses_recorded_slot p 0 4096 _ _ Huse Hlook Hpath Hcall Hcs).
Defined.

(** ** X12: deallocate twice *)

(** X12.  After a [deallocate] that has returned, a second [deallocate]
    of the same address returns as well: the address is no longer in the
    reverse index, so the call clears bit 0, sets the cache to 0 and adds
    [size_] to the counter once more. *)
Theorem deallocate_twice (p : linear_allocator) (ptr_ size_ : Z)
    (p1 : linear_allocator) :
  deallocate p ptr_ size_ = (Return (), p1) ->
  reserved_blocks_indices_ p1 !! ptr_ = None
  /\ available_count_ p1 = wrap (available_count_ p + size_)
  /\ deallocate p1 ptr_ size_
     = (Return (),
        mk_linear_allocator (count_ p) (elementSize_ p)
          (wrap (available_count_ p1 + size_)) (buffer_ p)
          (bitset.set (blocks_status_ p1) 0 false) 0
          (reserved_blocks_indices_ p1)).
Proof.
  intros Hcall.
  assert (Hmiss : reserved_blocks_indices_ p1 !! ptr_ = None).
  { apply not_elem_of_dom. intros Hin.
    apply (deallocate_index _ _ _ _ Hcall) in Hin.
    apply elem_of_difference in Hin as [_ Hne]. apply Hne, elem_of_singleton. reflexivity. }
  split; [exact Hmiss|].
  rewrite (deallocate_miss p1 ptr_ size_ Hmiss).
  unfold deallocate in Hcall.
  destruct (OBJECTS_LIMIT <=? _); [discriminate|]. injection Hcall as <-.
  cbn [count_ elementSize_ available_count_ buffer_]. auto.
Qed.

Lemma deallocate_twice_witness :
  let p := run (fresh 4096 16) [Allocate 1] in
  deallocate p 4096 1 = (Return (), snd (deallocate p 4096 1))
  /\ reserved_blocks_indices_ (snd (deallocate p 4096 1)) !! 4096 = None
  /\ available_count_ (snd (deallocate p 4096 1)) = wrap (available_count_ p + 1)
  /\ deallocate (snd (deallocate p 4096 1)) 4096 1
     = (Return (),
        mk_linear_allocator (count_ p) (elementSize_ p)
          (wrap (available_count_ (snd (deallocate p 4096 1)) + 1)) (buffer_ p)
          (bitset.set (blocks_status_ (snd (deallocate p 4096 1))) 0 false) 0
          (reserved_blocks_indices_ (snd (deallocate p 4096 1)))).
Proof.
  cbv zeta. set (p := run (fresh 4096 16) [Allocate 1]).
  assert (Hcall : deallocate p 4096 1 = (Return (), snd (deallocate p 4096 1)))
    by (vm_compute; reflexivity).
  split; [exact Hcall|].
  exact (deallocate_twice p 4096 1 _ Hcall).
Defined.

(** ** X13: max_size *)

(** X13.  For a positive element size, [max_size] is the largest number
    of elements whose size in bytes is at most the largest [std::size_t]
    value, and it is itself a [std::size_t] value. *)
Theorem max_size_is_largest (p : linear_allocator) :
  0 < elementSize_ p ->
  is_size_t (max_size p)
  /\ max_size p * elementSize_ p <= size_max - 1
  /\ forall n, n * elementSize_ p <= size_max - 1 -> n <= max_size p.
Proof.
  intros Hsize. unfold max_size, is_size_t.
  assert (Hmax : 0 <= size_max - 1) by (unfold size_max; lia).
  pose proof (Z.div_pos (size_max - 1) (elementSize_ p) Hmax Hsize) as Hdiv.
  pose proof (Z.mul_div_le (size_max - 1) (elementSize_ p) Hsize) as Hle.
  split; [split; [exact Hdiv|nia]|]. split; [lia|].
  intros n Hn. apply Z.div_le_lower_bound; lia.
Qed.

Lemma max_size_is_largest_witness :
  0 < elementSize_ (fresh 4096 16)
  /\ is_size_t (max_size (fresh 4096 16))
  /\ max_size (fresh 4096 16) * elementSize_ (fresh 4096 16) <= size_max - 1
  /\ forall n, n * elementSize_ (fresh 4096 16) <= size_max - 1 ->
       n <= max_size (fresh 4096 16).
Proof.
  assert (Hsize : 0 < elementSize_ (fresh 4096 16)) by (vm_compute; reflexivity).
  split; [exact Hsize|].
  exact (max_size_is_largest (fresh 4096 16) Hsize).
Defined.

(** ** X14: the slot that allocate reserves *)

(** X14.  A successful [allocate] of one block reserves exactly one slot,
    and one that was free: its bit was clear and is now set, every other
    bit is as before, one more bit is set in all, and the reverse index
    records that slot under the returned address. *)
Theorem allocate_reserves_free_slot (p : linear_allocator) (a : Z)
    (p' : linear_allocator) :
  0 <= freedIndex_ p ->
  allocate p 1 = (Return a, p') ->
  exists j,
    bitset.test (blocks_status_ p) j = Some false
    /\ bitset.test (blocks_status_ p') j = Some true
    /\ (forall k, 0 <= k -> k <> j ->
          bitset.test (blocks_status_ p') k = bitset.test (blocks_status_ p) k)
    /\ bitset.count (blocks_status_ p') = bitset.count (blocks_status_ p) + 1
    /\ reserved_blocks_indices_ p' !! a = Some j.
Proof.
  intros Hnonneg Hcall.
  destruct (allocate_records _ _ _ Hcall) as (Havail & _).
  destruct (allocate_effect _ _ _ _ Hnonneg Hcall)
    as [(_ & _ & _ & _ & _ & _ & [[_ Hlt]|[e [=]]])
       |(j & a' & [= <-] & _ & Hj & Hclear & -> & _)]; [lia|].
  destruct (test_Some _ _ _ Hj Hclear) as [Hlim Hbit].
  exists j. cbn [blocks_status_ reserved_blocks_indices_].
  split; [exact Hclear|]. split; [|split; [|split]].
  - unfold bitset.test, bitset.set.
    replace (OBJECTS_LIMIT <=? j) with false by (symmetry; apply Z.leb_gt; lia).
    apply list_lookup_insert_eq. eapply lookup_lt_Some, Hbit.
  - intros k Hk Hne. unfold bitset.test, bitset.set.
    destruct (OBJECTS_LIMIT <=? k); [reflexivity|].
    apply list_lookup_insert_ne. lia.
  - unfold bitset.set. rewrite (count_insert _ _ false true Hbit).
    cbn [Z.b2z]. lia.
  - apply lookup_insert_eq.
Qed.

Lemma allocate_reserves_free_slot_witness :
  let p := run (fresh 4096 16) [Allocate 1] in
  0 <= freedIndex_ p
  /\ allocate p 1 = (Return 4096, snd (allocate p 1))
  /\ exists j,
       bitset.test (blocks_status_ p) j = Some false
       /\ bitset.test (blocks_status_ (snd (allocate p 1))) j = Some true
       /\ (forall k, 0 <= k -> k <> j ->
             bitset.test (blocks_status_ (snd (allocate p 1))) k
             = bitset.test (blocks_status_ p) k)
       /\ bitset.count (blocks_status_ (snd (allocate p 1)))
          = bitset.count (blocks_status_ p) + 1
       /\ reserved_blocks_indices_ (snd (allocate p 1)) !! 4096 = Some j.
Proof.
  cbv zeta. set (p := run (fresh 4096 16) [Allocate 1]).
  assert (Hnonneg : 0 <= freedIndex_ p) by (vm_compute; discriminate).
  assert (Hcall : allocate p 1 = (Return 4096, snd (allocate p 1)))
    by (vm_compute; reflexivity).
  split; [exact Hnonneg|]. split; [exact Hcall|].
  exact (allocate_reserves_free_slot p 4096 _ Hnonneg Hcall).
Defined.
